(** * timesync: a shallow embedding of stat.js, util.js and timesync.js

    The functions of the three modules that the specification speaks about
    are embedded one by one, under their own names.

    Reading conventions.
    - JavaScript numbers are modelled by [num]: a rational, NaN or a signed
      infinity.  Every sum, product and quotient is rounded to the nearest
      double (ties to even, overflow to infinity, gradual underflow) by
      [round], so that the operations take doubles to doubles (a rational
      is a double when it is [representable]); the sign of zero is outside
      the model, and [Math.sqrt] is a function supplied by the host.
    - A function that can throw returns a [Result]; code that also reads or
      writes the instance runs in the monad [M] over a [World].
    - The members of the class are read as the fields and methods they
      denote: [offset], [_interval], [_inProgress], [_isFirst], [send],
      [receive], ...  The methods are studied on any object that has these
      fields (a [World]).  Inside the bodies every expression has the meaning
      JavaScript gives it in module code (strict mode): a function called
      without a receiver has [this === undefined] (outside strict mode it
      would be the global object, which has none of the instance's members
      either), a function called as [obj[key](...)] has [obj] as receiver, a
      [const] declared in a block is not visible after the block, an
      identifier that no enclosing scope declares is looked up on the global
      object and is a ReferenceError when absent.
    - [emit], the transport behind [send] and the clock [options.now] belong
      to the host: emitted events are appended to a log; the clock, what
      [send] does with a message and what the host does once a request is
      out are read from a [Host] description. *)

From Stdlib Require Import QArith Qreduction ZArith List String Ascii Bool Lia.
From stdpp Require Import base option gmap.
Import ListNotations.
Local Open Scope string_scope.

(** ** Errors and results *)

Inductive JsError : Type :=
| ReferenceError (identifier : string)
| TypeError (what : string)
| Error (message : string).

Inductive Result (A : Type) : Type :=
| Ok (a : A)
| Throw (e : JsError).
Arguments Ok {A} a.
Arguments Throw {A} e.

Definition rbind {A B} (r : Result A) (k : A -> Result B) : Result B :=
  match r with
  | Ok a => k a
  | Throw e => Throw e
  end.

Declare Scope result_scope.
Delimit Scope result_scope with result.
Notation "'let?' x ':=' r 'in' k" := (rbind r (fun x => k))
  (at level 10, x name, r at level 100, k at level 200) : result_scope.

(** ** Numbers *)

Inductive num : Type :=
| Fin (q : Q)
| NaN
| Inf (negative : bool).

Definition of_nat (n : nat) : num := Fin (inject_Z (Z.of_nat n)).
Definition of_Z (z : Z) : num := Fin (inject_Z z).

Definition Qneg_b (q : Q) : bool := (Qnum q <? 0)%Z.
Definition Qzero_b (q : Q) : bool := (Qnum q =? 0)%Z.

(** [a / d] for positive [a] and [d], rounded to the nearest double, ties to
    even; [None] when the rounded value is too large for a double. *)
Definition round_magnitude (a d : Z) : option Q :=
  let e0 := (Z.log2 a - Z.log2 d)%Z in
  (* the binary exponent of a / d is e0 or e0 - 1 *)
  let below :=
    if (0 <=? e0)%Z then (a <? d * 2 ^ e0)%Z else (a * 2 ^ (- e0) <? d)%Z in
  let e := if below then (e0 - 1)%Z else e0 in
  (* the unit in the last place is 2 ^ k: 53 significant bits, and no
     exponent below that of the subnormal numbers *)
  let k := Z.max (e - 52) (-1074) in
  let n := if (0 <=? k)%Z then a else (a * 2 ^ (- k))%Z in
  let m := if (0 <=? k)%Z then (d * 2 ^ k)%Z else d in
  let fl := (n / m)%Z in
  let rest := (2 * (n mod m))%Z in
  let significand :=
    if (rest <? m)%Z then fl
    else if (m <? rest)%Z then (fl + 1)%Z
    else if Z.even fl then fl else (fl + 1)%Z in
  if (0 <=? k)%Z then
    if (2 ^ 1024 <=? significand * 2 ^ k)%Z then None
    else Some (inject_Z (significand * 2 ^ k))
  else Some (Qred (significand # Z.to_pos (2 ^ (- k)))).

(** A rational rounded to a double. *)
Definition round (q : Q) : num :=
  let r := Qred q in
  match (Qnum r ?= 0)%Z with
  | Eq => Fin 0
  | Gt =>
      match round_magnitude (Qnum r) (Zpos (Qden r)) with
      | Some m => Fin m
      | None => Inf false
      end
  | Lt =>
      match round_magnitude (- Qnum r) (Zpos (Qden r)) with
      | Some m => Fin (Qred (- m))
      | None => Inf true
      end
  end.

Definition nneg (a : num) : num :=
  match a with
  | Fin q => Fin (Qred (- q))
  | NaN => NaN
  | Inf s => Inf (negb s)
  end.

Definition nadd (a b : num) : num :=
  match a, b with
  | Fin x, Fin y => round (x + y)
  | NaN, _ | _, NaN => NaN
  | Inf s, Inf t => if Bool.eqb s t then Inf s else NaN
  | Inf s, Fin _ | Fin _, Inf s => Inf s
  end.

Definition nsub (a b : num) : num := nadd a (nneg b).

Definition nmul (a b : num) : num :=
  match a, b with
  | Fin x, Fin y => round (x * y)
  | NaN, _ | _, NaN => NaN
  | Inf s, Inf t => Inf (xorb s t)
  | Inf s, Fin y | Fin y, Inf s =>
      if Qzero_b y then NaN else Inf (xorb s (Qneg_b y))
  end.

Definition ndiv (a b : num) : num :=
  match a, b with
  | Fin x, Fin y =>
      if Qzero_b y
      then (if Qzero_b x then NaN else Inf (Qneg_b x))
      else round (x / y)
  | NaN, _ | _, NaN => NaN
  | Inf _, Inf _ => NaN
  | Inf s, Fin y => Inf (xorb s (Qneg_b y))
  | Fin _, Inf _ => Fin 0
  end.

(** [a < b]; every comparison with NaN is false. *)
Definition nlt (a b : num) : bool :=
  match a, b with
  | Fin x, Fin y => match (x ?= y)%Q with Lt => true | _ => false end
  | NaN, _ | _, NaN => false
  | Inf s, Inf t => s && negb t
  | Inf s, Fin _ => s
  | Fin _, Inf t => negb t
  end.

Definition ngt (a b : num) : bool := nlt b a.

Definition isNaN (a : num) : bool :=
  match a with NaN => true | _ => false end.

Definition isFinite (a : num) : bool :=
  match a with Fin _ => true | _ => false end.

(** A value read from an array slot or returned by a function is a number or
    [undefined] ([None]); [undefined] used in arithmetic is NaN. *)
Definition to_number (v : option num) : num :=
  match v with Some a => a | None => NaN end.

(** [arr[i]] for a numeric index: defined only at an integer inside the
    array. *)
Definition index (arr : list num) (i : num) : option num :=
  match i with
  | Fin q =>
      let r := Qred q in
      if (Zpos (Qden r) =? 1)%Z && (0 <=? Qnum r)%Z
      then nth_error arr (Z.to_nat (Qnum r))
      else None
  | _ => None
  end.

(** ** The host *)

(** Identifiers that the sources use without declaring them are resolved on
    the global object; the host may or may not bind them. *)
Record Globals : Type := {
  g_len : option num;
  g_sorted : option (list num);
  g_timestamp : option num
}.

Definition resolve {A} (name : string) (binding : option A) : Result A :=
  match binding with
  | Some v => Ok v
  | None => Throw (ReferenceError name)
  end.

(** No binding for any of them, as in Node.js and in browsers. *)
Definition no_globals : Globals :=
  {| g_len := None; g_sorted := None; g_timestamp := None |}.

(** ** stat.js *)

Module Stat.
Section WithHost.

Variable sqrt : num -> num.
Variable globals : Globals.

Definition compare (a b : num) : Z :=
  if ngt a b then 1%Z else if nlt a b then (-1)%Z else 0%Z.

Definition add (a b : num) : num := nadd a b.

(** [arr.reduce(f)] without an initial value. *)
Definition reduce (f : num -> num -> num) (arr : list num) : Result num :=
  match arr with
  | [] => Throw (TypeError "Reduce of empty array with no initial value")
  | x :: xs => Ok (fold_left f xs x)
  end.

Definition sum (arr : list num) : Result num := reduce add arr.

Definition mean (arr : list num) : Result num :=
  (let? s := sum arr in
   Ok (ndiv s (of_nat (length arr))))%result.

(** [Math.pow(d, 2)] is the product [d * d], rounded. *)
Definition variance (arr : list num) : Result num :=
  if (length arr <? 2)%nat then Ok (of_nat 0)
  else
    (let? _mean := mean arr in
     let? s := reduce add (map (fun x => nmul (nsub x _mean) (nsub x _mean)) arr) in
     Ok (ndiv s (of_nat (length arr - 1))))%result.

Definition std (arr : list num) : Result num :=
  (let? v := variance arr in Ok (sqrt v))%result.

(** [arr.sort(compare)]: a stable insertion sort driven by [compare]. *)
Fixpoint insert_sorted (x : num) (l : list num) : list num :=
  match l with
  | [] => [x]
  | y :: l' =>
      if (0 <? compare x y)%Z then y :: insert_sorted x l' else x :: l
  end.

Definition sort (arr : list num) : list num :=
  fold_right insert_sorted [] arr.

(** [median] sorts [arr] in place and reads its answer through the
    identifiers [len] and [sorted], which neither the function nor the module
    declares.  The result is the final content of [arr] together with the
    value returned or the error thrown. *)
Definition median (arr : list num) : list num * Result (option num) :=
  match resolve "len" (g_len globals) with
  | Throw e => (arr, Throw e)
  | Ok len =>
      if nlt len (of_nat 2) then (arr, Ok (nth_error arr 0))
      else
        let half := ndiv (of_nat (length arr)) (of_nat 2) in
        let mod2 := Nat.modulo (length arr) 2 in
        let arr' := sort arr in
        if (mod2 =? 0)%nat then
          (arr',
           (let? sorted := resolve "sorted" (g_sorted globals) in
            Ok (Some (ndiv (nadd (to_number (index sorted half))
                                 (to_number (index sorted (nsub half (of_nat 1)))))
                           (of_nat 2))))%result)
        else
          (arr',
           (let? sorted := resolve "sorted" (g_sorted globals) in
            Ok (index sorted (nsub half (Fin (1 # 2)))))%result)
  end.

End WithHost.
End Stat.


(** ** Values, envelopes and the instance *)

(** The wire envelope.  An absent field is [None]; ids are the numbers that
    [util.nextId] produces. *)
Record Envelope : Type := {
  env_jsonrpc : option string;
  env_id : option nat;
  env_method : option string;
  env_params : option string;
  env_result : option num
}.

Inductive value : Type :=
| VUndefined
| VNull
| VNum (n : num)
| VStr (s : string)
| VArr (items : list string)
| VObj (e : Envelope).

Definition truthy (v : value) : bool :=
  match v with
  | VUndefined | VNull => false
  | VNum (Fin q) => negb (Qzero_b q)
  | VNum NaN => false
  | VNum (Inf _) => true
  | VStr s => negb (String.eqb s "")
  | VArr _ | VObj _ => true
  end.

Definition is_undefined (v : value) : bool :=
  match v with VUndefined => true | _ => false end.

(** [v.id] and [v.result]; a property of a value that is not an envelope is
    [undefined]. *)
Definition id_of (v : value) : option nat :=
  match v with VObj e => env_id e | _ => None end.

Definition result_of (v : value) : option num :=
  match v with VObj e => env_result e | _ => None end.

Record Options : Type := {
  opt_interval : option num;   (* [null] is [None] *)
  opt_timeout : num;
  opt_delay : num;
  opt_repeat : num;
  opt_peers : value;
  opt_server : value
}.

Definition defaultOptions : Options :=
  {| opt_interval := Some (of_Z (60 * 60 * 1000));
     opt_timeout := of_Z 10000;
     opt_delay := of_Z 1000;
     opt_repeat := of_nat 5;
     opt_peers := VArr [];
     opt_server := VNull |}.

Record Event : Type := { ev_name : string; ev_payload : value }.

Record Sample : Type := { roundtrip : num; s_offset : num }.

(** How a promise stands. *)
Inductive Settlement (A : Type) : Type :=
| Pending
| Resolved (v : A)
| Rejected (e : JsError).
Arguments Pending {A}.
Arguments Resolved {A} v.
Arguments Rejected {A} e.

(** What the transport's [send] does with a message. *)
Inductive SendOutcome : Type :=
| SendThrows (e : JsError)
| SendReturnsOther          (* returns something that is not a promise *)
| SendReturnsPromise.

(** The closure stored in [_inProgress[id]]: it captures [id] and the
    [resolve] of the promise that [rpc] returned for that id. *)
Record Handler : Type := { captured_id : nat }.

Record World : Type := {
  (* fields of the instance *)
  offset : num;
  _interval : option num;          (* period of the armed recurring timer *)
  _inProgress : gmap nat Handler;
  _isFirst : bool;
  options : Options;
  (* module state of util.js *)
  _id : nat;
  (* promises returned by [rpc], by request id *)
  deferreds : gmap nat (Settlement (option num));
  (* ids whose send promise got [_handleRPCSendError] as catch handler *)
  catching : gset nat;
  (* what the host has seen *)
  events : list Event;
  outbox : list (value * Envelope);
  warnings : nat;
  (* counters into the host's description *)
  ticks : nat;                     (* reads of [options.now()] so far *)
  waits : list num                 (* delays waited with [util.wait] *)
}.

(** What the host may do once a request is out: hand a reply with the
    request's id to [receive], or let the promise that [send] returned
    reject. *)
Inductive HostAction : Type :=
| Deliver (result : option num)
| RejectSend.

Record Host : Type := {
  math_sqrt : num -> num;
  globals : Globals;
  clock : nat -> num;                       (* k-th reading of [options.now()] *)
  host_send : value -> Envelope -> SendOutcome;
  reacts : nat -> list HostAction           (* what follows request [id] *)
}.

Definition set_offset (v : num) (w : World) : World :=
  {| offset := v; _interval := _interval w; _inProgress := _inProgress w;
     _isFirst := _isFirst w; options := options w; _id := _id w;
     deferreds := deferreds w; catching := catching w; events := events w;
     outbox := outbox w; warnings := warnings w;
     ticks := ticks w; waits := waits w |}.

Definition set__interval (v : option num) (w : World) : World :=
  {| offset := offset w; _interval := v; _inProgress := _inProgress w;
     _isFirst := _isFirst w; options := options w; _id := _id w;
     deferreds := deferreds w; catching := catching w; events := events w;
     outbox := outbox w; warnings := warnings w;
     ticks := ticks w; waits := waits w |}.

Definition set__inProgress (v : gmap nat Handler) (w : World) : World :=
  {| offset := offset w; _interval := _interval w; _inProgress := v;
     _isFirst := _isFirst w; options := options w; _id := _id w;
     deferreds := deferreds w; catching := catching w; events := events w;
     outbox := outbox w; warnings := warnings w;
     ticks := ticks w; waits := waits w |}.

Definition set__isFirst (v : bool) (w : World) : World :=
  {| offset := offset w; _interval := _interval w; _inProgress := _inProgress w;
     _isFirst := v; options := options w; _id := _id w;
     deferreds := deferreds w; catching := catching w; events := events w;
     outbox := outbox w; warnings := warnings w;
     ticks := ticks w; waits := waits w |}.

Definition set__id (v : nat) (w : World) : World :=
  {| offset := offset w; _interval := _interval w; _inProgress := _inProgress w;
     _isFirst := _isFirst w; options := options w; _id := v;
     deferreds := deferreds w; catching := catching w; events := events w;
     outbox := outbox w; warnings := warnings w;
     ticks := ticks w; waits := waits w |}.

Definition set_deferreds (v : gmap nat (Settlement (option num))) (w : World) : World :=
  {| offset := offset w; _interval := _interval w; _inProgress := _inProgress w;
     _isFirst := _isFirst w; options := options w; _id := _id w;
     deferreds := v; catching := catching w; events := events w;
     outbox := outbox w; warnings := warnings w;
     ticks := ticks w; waits := waits w |}.

Definition set_catching (v : gset nat) (w : World) : World :=
  {| offset := offset w; _interval := _interval w; _inProgress := _inProgress w;
     _isFirst := _isFirst w; options := options w; _id := _id w;
     deferreds := deferreds w; catching := v; events := events w;
     outbox := outbox w; warnings := warnings w;
     ticks := ticks w; waits := waits w |}.

Definition set_events (v : list Event) (w : World) : World :=
  {| offset := offset w; _interval := _interval w; _inProgress := _inProgress w;
     _isFirst := _isFirst w; options := options w; _id := _id w;
     deferreds := deferreds w; catching := catching w; events := v;
     outbox := outbox w; warnings := warnings w;
     ticks := ticks w; waits := waits w |}.

Definition set_outbox (v : list (value * Envelope)) (w : World) : World :=
  {| offset := offset w; _interval := _interval w; _inProgress := _inProgress w;
     _isFirst := _isFirst w; options := options w; _id := _id w;
     deferreds := deferreds w; catching := catching w; events := events w;
     outbox := v; warnings := warnings w;
     ticks := ticks w; waits := waits w |}.

Definition set_warnings (v : nat) (w : World) : World :=
  {| offset := offset w; _interval := _interval w; _inProgress := _inProgress w;
     _isFirst := _isFirst w; options := options w; _id := _id w;
     deferreds := deferreds w; catching := catching w; events := events w;
     outbox := outbox w; warnings := v;
     ticks := ticks w; waits := waits w |}.

Definition set_ticks (v : nat) (w : World) : World :=
  {| offset := offset w; _interval := _interval w; _inProgress := _inProgress w;
     _isFirst := _isFirst w; options := options w; _id := _id w;
     deferreds := deferreds w; catching := catching w; events := events w;
     outbox := outbox w; warnings := warnings w;
     ticks := v; waits := waits w |}.

Definition set_waits (v : list num) (w : World) : World :=
  {| offset := offset w; _interval := _interval w; _inProgress := _inProgress w;
     _isFirst := _isFirst w; options := options w; _id := _id w;
     deferreds := deferreds w; catching := catching w; events := events w;
     outbox := outbox w; warnings := warnings w;
     ticks := ticks w; waits := v |}.

(** ** The monad of instance code *)

Inductive Outcome (A : Type) : Type :=
| Ret (a : A) (w : World)      (* returned, or the promise resolved *)
| Exc (e : JsError) (w : World)  (* threw, or the promise rejected *)
| Stuck (w : World)            (* awaits a promise that never settles *)
| OutOfFuel.
Arguments Ret {A} a w.
Arguments Exc {A} e w.
Arguments Stuck {A} w.
Arguments OutOfFuel {A}.

Definition M (A : Type) : Type := World -> Outcome A.

Definition ret {A} (a : A) : M A := fun w => Ret a w.
Definition throw {A} (e : JsError) : M A := fun w => Exc e w.

Definition bind {A B} (m : M A) (k : A -> M B) : M B :=
  fun w =>
    match m w with
    | Ret a w' => k a w'
    | Exc e w' => Exc e w'
    | Stuck w' => Stuck w'
    | OutOfFuel => OutOfFuel
    end.

Declare Scope js_scope.
Delimit Scope js_scope with js.
Notation "x <~ m ;; k" := (bind m (fun x => k))
  (at level 100, m at next level, right associativity) : js_scope.
Notation "m ;;; k" := (bind m (fun _ => k))
  (at level 100, right associativity) : js_scope.
Local Open Scope js_scope.

Definition gets {A} (f : World -> A) : M A := fun w => Ret (f w) w.
Definition modify (f : World -> World) : M unit := fun w => Ret tt (f w).

Definition lift {A} (r : Result A) : M A :=
  match r with
  | Ok a => ret a
  | Throw e => throw e
  end.

(** [try { m } catch (err) { ... }]: the error, if any, becomes a value. *)
Definition try_ {A} (m : M A) : M (Result A) :=
  fun w =>
    match m w with
    | Ret a w' => Ret (Ok a) w'
    | Exc e w' => Ret (Throw e) w'
    | Stuck w' => Stuck w'
    | OutOfFuel => OutOfFuel
    end.

(** Calling an [async] function: the caller gets a promise at once and never
    an exception.  The body is run as far as it goes; its outcome is the
    state of the promise. *)
Definition start_async {A} (m : M A) : M (Settlement A) :=
  fun w =>
    match m w with
    | Ret a w' => Ret (Resolved a) w'
    | Exc e w' => Ret (Rejected e) w'
    | Stuck w' => Ret Pending w'
    | OutOfFuel => OutOfFuel
    end.

(** Receivers.  [this] is [undefined] ([None]), the instance, or the object
    held in its [_inProgress] field. *)
Inductive objref : Type := TheInstance | ThePendingMap.

(** A member chain [this.x...] whose first link [x] is a member of the
    instance ([_getOffset], [options], [_inProgress]).  On [undefined] reading
    [x] is a TypeError.  The pending-request object has only request ids as
    keys, so there [this.x] is [undefined] and the next step (a call, a
    property read, a [delete] through it) is a TypeError. *)
Definition on_instance {A} (this : option objref) (expr : string) (k : M A) : M A :=
  match this with
  | Some TheInstance => k
  | Some ThePendingMap | None => throw (TypeError expr)
  end.

Definition emit (name : string) (payload : value) : M unit :=
  modify (fun w => set_events (events w ++ [{| ev_name := name; ev_payload := payload |}]) w).

(** ** util.js *)

Module Util.

(** [wait(delay)]: the promise resolves after the delay; the delay is
    recorded, time itself is the host's clock. *)
Definition wait (delay : num) : M unit :=
  modify (fun w => set_waits (waits w ++ [delay]) w).

(** [whilst(condition, callback)].  Both functions are called without a
    receiver.  What the two closures share (in [_syncWithPeer], the array
    [all]) is the loop state [s]. *)
Fixpoint whilst {S : Type} (fuel : nat)
    (condition : option objref -> S -> M bool)
    (callback : option objref -> S -> M S) (s : S) : M S :=
  match fuel with
  | O => fun _ => OutOfFuel
  | Datatypes.S fuel' =>
      go_on <~ condition None s ;;
      if go_on : bool
      then s' <~ callback None s ;; whilst fuel' condition callback s'
      else ret s
  end.

(** [repeat(fn, times)]: the results of [times] calls of [fn], one after
    the other. *)
Fixpoint repeat {A : Type} (fn : option objref -> M A) (times : nat) : M (list A) :=
  match times with
  | O => ret []
  | Datatypes.S times' =>
      x <~ fn None ;;
      xs <~ repeat fn times' ;;
      ret (x :: xs)
  end.

(** [nextId]: [return _id++]. *)
Definition nextId : M nat :=
  fun w => Ret (_id w) (set__id (Datatypes.S (_id w)) w).

End Util.

(** ** timesync.js *)

Module TimeSync.
Section WithHost.

Variable h : Host.

(** [this.options.now()] *)
Definition options_now : M num :=
  fun w => Ret (clock h (ticks w)) (set_ticks (S (ticks w)) w).

(** [now()] *)
Definition now : M num :=
  t <~ options_now ;;
  o <~ gets offset ;;
  ret (nadd t o).

(** [send(to, data, timeout)] "must be overridden when using timesync": it
    is the transport the host installs.  The message is logged and the host
    decides what the call does; the result is whether a promise came back.
    (The placeholder body in the class posts through a [request] object and
    reports through [emitError], which the module does not have: it returns
    a promise that rejects, the behaviour of [unreachable_host] below.) *)
Definition send (to : value) (data : Envelope) : M bool :=
  modify (fun w => set_outbox (outbox w ++ [(to, data)]) w) ;;;
  match host_send h to data with
  | SendThrows e => throw e
  | SendReturnsOther => ret false
  | SendReturnsPromise => ret true
  end.

(** [resolve(v)] and [reject(e)] of the promise of request [id]; a settled
    promise stays as it is. *)
Definition settle_deferred (id : nat) (s : Settlement (option num)) : M unit :=
  modify (fun w =>
    match deferreds w !! id with
    | Some Pending => set_deferreds (<[id := s]> (deferreds w)) w
    | _ => w
    end).

(** The function that [rpc] stores under [_inProgress[id]]:
    [function (data) { delete this._inProgress[id]; resolve(data) }]. *)
Definition completion (hd : Handler) (this : option objref) (data : option num) : M unit :=
  on_instance this "this._inProgress"
    (modify (fun w => set__inProgress (delete (captured_id hd) (_inProgress w)) w)) ;;;
  settle_deferred (captured_id hd) (Resolved data).

(** [receive(from, data)]; a missing argument is [VUndefined]. *)
Definition receive (from data : value) : M unit :=
  let '(from, data) :=
    if is_undefined data then (VUndefined, from) else (from, data) in
  inProgress <~ gets _inProgress ;;
  match (if truthy data then id_of data ≫= (fun id => inProgress !! id) else None) with
  | Some handler =>
      (* this._inProgress[data.id](data.result): the receiver of the call is
         the object [this._inProgress] *)
      completion handler (Some ThePendingMap) (result_of data)
  | None =>
      if truthy data && bool_decide (is_Some (id_of data)) then
        t <~ now ;;
        send from {| env_jsonrpc := Some "2.0"; env_id := id_of data;
                     env_method := None; env_params := None;
                     env_result := Some t |} ;;;
        ret tt
      else ret tt
  end.

(** [_handleRPCSendError(id, reject, err)]; always called on the instance
    (as a method in [rpc], and bound to [this] for the catch handler). *)
Definition _handleRPCSendError (id : nat) : M unit :=
  modify (fun w => set__inProgress (delete id (_inProgress w)) w) ;;;
  settle_deferred id (Rejected (Error "Send failure")).

(** [rpc(to, method, params)]; the result is the id under which the returned
    promise is kept in [deferreds]. *)
Definition rpc (to : value) (method : string) (params : option string) : M nat :=
  id <~ Util.nextId ;;
  modify (fun w => set_deferreds (<[id := Pending]> (deferreds w)) w) ;;;
  modify (fun w => set__inProgress (<[id := {| captured_id := id |}]> (_inProgress w)) w) ;;;
  sent <~ try_ (send to {| env_jsonrpc := Some "2.0"; env_id := Some id;
                          env_method := Some method; env_params := params;
                          env_result := None |}) ;;
  sendResult <~ match sent with
                | Throw err => _handleRPCSendError id ;;; ret false
                | Ok r => ret r
                end ;;
  (if sendResult : bool
   then modify (fun w => set_catching ({[id]} ∪ catching w) w)
   else modify (fun w => set_warnings (S (warnings w)) w)) ;;;
  ret id.

(** The promise that [send] returned for request [id] rejects. *)
Definition send_promise_rejects (id : nat) : M unit :=
  c <~ gets catching ;;
  if bool_decide (id ∈ c) then _handleRPCSendError id else ret tt.

(** [_validOffset(offset)]; [null] is [None]. *)
Definition _validOffset (offset : option num) : bool :=
  match offset with
  | None => false
  | Some n => negb (isNaN n) && isFinite n
  end.

(** The host runs [receive] from code of its own (a socket callback, the
    body of its [send]): what [receive] throws goes there and not to the
    code that awaits the reply. *)
Definition host_calls {A} (m : M A) : M unit :=
  fun w =>
    match m w with
    | Ret _ w' | Exc _ w' | Stuck w' => Ret tt w'
    | OutOfFuel => OutOfFuel
    end.

Definition host_action (peer : value) (id : nat) (a : HostAction) : M unit :=
  match a with
  | Deliver result =>
      host_calls (receive peer (VObj {| env_jsonrpc := Some "2.0"; env_id := Some id;
                                        env_method := None; env_params := None;
                                        env_result := result |}))
  | RejectSend => send_promise_rejects id
  end.

Fixpoint host_turn (peer : value) (id : nat) (actions : list HostAction) : M unit :=
  match actions with
  | [] => ret tt
  | a :: rest => host_action peer id a ;;; host_turn peer id rest
  end.

(** [await] on the promise that [rpc] returned for request [id]: the host
    has its turn, then the promise is looked at. *)
Definition await (peer : value) (id : nat) : M (option num) :=
  host_turn peer id (reacts h id) ;;;
  fun w =>
    match deferreds w !! id with
    | Some (Resolved v) => Ret v w
    | Some (Rejected e) => Exc e w
    | Some Pending | None => Stuck w
    end.

(** [_getOffset(peer)] after its [try] statement (lines 212-226).  The
    [const timestamp] of the [try] block is gone here; the [timestamp] of the
    offset formula is a free identifier. *)
Definition _getOffset_after (start : num) (awaited : Result (option num))
  : M (option Sample) :=
  match awaited with
  | Throw err => ret None
  | Ok timestamp_of_the_block =>
      end_ <~ options_now ;;
      let roundtrip := nsub end_ start in
      timestamp <~ lift (resolve "timestamp" (g_timestamp (globals h))) ;;
      let offset := nadd (nsub timestamp end_) (ndiv roundtrip (of_nat 2)) in
      isFirst <~ gets _isFirst ;;
      (if isFirst : bool then
         modify (set__isFirst false) ;;;
         modify (set_offset offset) ;;;
         emit "change" (VNum offset)
       else ret tt) ;;;
      ret (Some {| roundtrip := roundtrip; s_offset := offset |})
  end.

(** [_getOffset(peer)] *)
Definition _getOffset (peer : value) : M (option Sample) :=
  start <~ options_now ;;
  awaited <~ try_ (id <~ rpc peer "timesync" None ;; await peer id) ;;
  _getOffset_after start awaited.

(** The functions declared inside [_syncWithPeer] ([sync], [waitAndSync] and
    [notDone]); each takes its receiver. *)
Definition _syncWithPeer_sync (peer : value) (this : option objref) (all : list (option Sample))
  : M (list (option Sample)) :=
  on_instance this "this._getOffset"
    (result <~ _getOffset peer ;; ret (all ++ [result])%list).

Definition _syncWithPeer_waitAndSync (peer : value) (this : option objref) (all : list (option Sample))
  : M (list (option Sample)) :=
  on_instance this "this.options"
    (delay <~ gets (fun w => opt_delay (options w)) ;;
     Util.wait delay ;;;
     (* .then(sync) *)
     _syncWithPeer_sync peer None all).

Definition _syncWithPeer_notDone (this : option objref) (all : list (option Sample)) : M bool :=
  on_instance this "this.options"
    (repeat_ <~ gets (fun w => opt_repeat (options w)) ;;
     ret (nlt (of_nat (length all)) repeat_)).

(** Lines 181-193 of [_syncWithPeer]: from the collected results to the
    offset of the peer ([None] is [null]). *)
Definition reduce_results (all : list (option Sample)) : Result (option num) :=
  let results := omap id all in
  let roundtrips := map roundtrip results in
  (let? sd := Stat.std (math_sqrt h) roundtrips in
   let? md := snd (Stat.median (globals h) roundtrips) in
   let limit := nadd sd (to_number md) in
   let filtered := List.filter (fun result => nlt (roundtrip result) limit) results in
   let offsets := map s_offset filtered in
   if (0 <? length offsets)%nat
   then (let? m := Stat.mean offsets in Ok (Some m))
   else Ok None)%result.

(** [_syncWithPeer(peer)] *)
Definition _syncWithPeer (fuel : nat) (peer : value) : M (option num) :=
  all <~ _syncWithPeer_sync peer None [] ;;
  all <~ Util.whilst fuel _syncWithPeer_notDone (_syncWithPeer_waitAndSync peer) all ;;
  lift (reduce_results all).

(** What [sync] holds in [all]: an array, or the promise of one. *)
Inductive Joined : Type :=
| JArray (items : list (option num))
| JPromise (p : Settlement (list (option num))).

(** [Promise.all] *)
Fixpoint Promise_all (ps : list (Settlement (option num)))
  : Settlement (list (option num)) :=
  match ps with
  | [] => Resolved []
  | Rejected e :: _ => Rejected e
  | Pending :: rest =>
      match Promise_all rest with
      | Rejected e => Rejected e
      | _ => Pending
      end
  | Resolved v :: rest =>
      match Promise_all rest with
      | Resolved vs => Resolved (v :: vs)
      | Rejected e => Rejected e
      | Pending => Pending
      end
  end.

(** [all.filter(f)]: arrays have the method, promises do not. *)
Definition call_filter (all : Joined) (f : option num -> bool) : M (list (option num)) :=
  match all with
  | JArray items => ret (List.filter f items)
  | JPromise _ => throw (TypeError "all.filter is not a function")
  end.

Fixpoint mapM {A B} (f : A -> M B) (l : list A) : M (list B) :=
  match l with
  | [] => ret []
  | x :: l' => y <~ f x ;; ys <~ mapM f l' ;; ret (y :: ys)
  end.

(** The peers of a round; [peers.map] needs an array. *)
Definition peers_of (o : Options) : Result (list value) :=
  if truthy (opt_server o) then Ok [opt_server o]
  else match opt_peers o with
       | VArr items => Ok (map VStr items)
       | _ => Throw (TypeError "peers.map is not a function")
       end.

(** [sync()] *)
Definition sync (fuel : nat) : M unit :=
  emit "sync" (VStr "start") ;;;
  o <~ gets options ;;
  peers <~ lift (peers_of o) ;;
  started <~ mapM (fun peer => start_async (_syncWithPeer fuel peer)) peers ;;
  let all := JPromise (Promise_all started) in
  offsets <~ call_filter all _validOffset ;;
  (if (0 <? length offsets)%nat then
     m <~ lift (Stat.mean (map to_number offsets)) ;;
     modify (set_offset m) ;;;
     o' <~ gets offset ;;
     emit "change" (VNum o')
   else ret tt) ;;;
  emit "sync" (VStr "end").

(** [destroy()] *)
Definition destroy : M unit := modify (set__interval None).

End WithHost.

(** *** The constructor *)

(** The options object handed to the constructor; [None] is a missing key. *)
Record RawOptions : Type := {
  raw_interval : option (option num);
  raw_timeout : option num;
  raw_delay : option num;
  raw_repeat : option num;
  raw_peers : option value;
  raw_server : option value
}.

Definition prop (field : option value) : value := default VUndefined field.

Definition dquote : string := String (ascii_of_nat 34) EmptyString.

Definition configuration_message : string :=
  "Configure either option " ++ dquote ++ "peers" ++ dquote ++ " or "
  ++ dquote ++ "server" ++ dquote ++ ", not both.".

(** The check that opens the constructor. *)
Definition constructor_guard (raw : RawOptions) : Result unit :=
  if truthy (prop (raw_server raw)) && truthy (prop (raw_peers raw))
  then Throw (Error configuration_message)
  else Ok tt.

(** The fields of the class as their initialisers give them (no offset,
    no timer, nothing pending, no sample applied yet), in a freshly loaded
    module, on an object whose [options] are [o]. *)
Definition fields (o : Options) : World :=
  {| offset := of_nat 0;
     _interval := None;
     _inProgress := ∅;
     _isFirst := true;
     options := o;
     _id := 0;
     deferreds := ∅;
     catching := ∅;
     events := [];
     outbox := [];
     warnings := 0;
     ticks := 0; waits := [] |}.

(** [new TimeSync(options)].  The class extends [EventTarget] and its
    constructor never calls [super()], so [this] is not initialised: once the
    check is passed, [this.options = ...] (line 263) throws a ReferenceError,
    and the statements after it are never reached. *)
Definition constructor (raw : RawOptions) : Result World :=
  (let? _ := constructor_guard raw in
   Throw (ReferenceError "this"))%result.

End TimeSync.

(** ** What a sample may apply *)

(** The part of the instance that the first successful sample is meant to
    change: the offset, the flag and the events emitted. *)
Definition applied (w : World) : num * bool * list Event :=
  (offset w, _isFirst w, events w).

(** The world of an outcome. *)
Definition world_after {A} (o : Outcome A) (otherwise : World) : World :=
  match o with
  | Ret _ w | Exc _ w | Stuck w => w
  | OutOfFuel => otherwise
  end.

(** [m] leaves that part alone, however it ends. *)
Definition keeps_applied {A} (m : M A) : Prop :=
  forall w, applied (world_after (m w) w) = applied w.

(** ** The arithmetic mean as the specification words it *)

Definition Qsum (l : list Q) : Q := fold_right Qplus 0%Q l.

Definition arithmetic_mean (l : list Q) : Q :=
  (Qsum l / inject_Z (Z.of_nat (length l)))%Q.

(** ** Scenarios *)

(** A stand-in for [Math.sqrt] that is exact on the squares of integers. *)
Definition floor_sqrt (x : num) : num :=
  match x with
  | Fin q => of_Z (Z.sqrt (Qnum q / Zpos (Qden q)))
  | NaN => NaN
  | Inf true => NaN
  | Inf false => Inf false
  end.

(** A host without the stray globals whose transport returns promises: the
    clock reads 100 and then 120, and every request is answered with the
    peer's time 1000. *)
Definition answering_host : Host :=
  {| math_sqrt := floor_sqrt;
     globals := no_globals;
     clock := fun k => match k with O => of_nat 100 | _ => of_nat 120 end;
     host_send := fun _ _ => SendReturnsPromise;
     reacts := fun _ => [Deliver (Some (of_nat 1000))] |}.

(** The same host with peers that cannot be reached: [send] returns a
    promise, which rejects. *)
Definition unreachable_host : Host :=
  {| math_sqrt := floor_sqrt;
     globals := no_globals;
     clock := fun k => of_nat (100 + 20 * k);
     host_send := fun _ _ => SendReturnsPromise;
     reacts := fun _ => [RejectSend] |}.

(** A host whose transport throws. *)
Definition broken_host : Host :=
  {| math_sqrt := floor_sqrt;
     globals := no_globals;
     clock := fun k => of_nat (100 + 20 * k);
     host_send := fun _ _ => SendThrows (Error "offline");
     reacts := fun _ => [] |}.

Definition two_peers : TimeSync.RawOptions :=
  {| TimeSync.raw_interval := Some None;
     TimeSync.raw_timeout := None;
     TimeSync.raw_delay := None;
     TimeSync.raw_repeat := None;
     TimeSync.raw_peers := Some (VArr ["peer1"; "peer2"]);
     TimeSync.raw_server := None |}.

Definition one_server : TimeSync.RawOptions :=
  {| TimeSync.raw_interval := Some None;
     TimeSync.raw_timeout := None;
     TimeSync.raw_delay := None;
     TimeSync.raw_repeat := None;
     TimeSync.raw_peers := None;
     TimeSync.raw_server := Some (VStr "server") |}.

Definition server_and_peers : TimeSync.RawOptions :=
  {| TimeSync.raw_interval := Some None;
     TimeSync.raw_timeout := None;
     TimeSync.raw_delay := None;
     TimeSync.raw_repeat := None;
     TimeSync.raw_peers := Some (VArr ["peer1"; "peer2"]);
     TimeSync.raw_server := Some (VStr "server") |}.

(** An object with the fields of the class, no automatic synchronisation
    and two peers in its options. *)
Definition instance_with_two_peers : World :=
  TimeSync.fields
    {| opt_interval := None;
       opt_timeout := opt_timeout defaultOptions;
       opt_delay := opt_delay defaultOptions;
       opt_repeat := opt_repeat defaultOptions;
       opt_peers := VArr ["peer1"; "peer2"];
       opt_server := VNull |}.

(** The same instance with one call to [peer1] under way. *)
Definition instance_with_pending_call : World :=
  world_after
    (TimeSync.rpc answering_host (VStr "peer1") "timesync" None instance_with_two_peers)
    instance_with_two_peers.

(** The reply of [peer1] to request 0. *)
Definition reply_to_0 : Envelope :=
  {| env_jsonrpc := Some "2.0"; env_id := Some 0; env_method := None;
     env_params := None; env_result := Some (of_nat 1000) |}.

(** Four samples with round trips 10, 12, 11 and 500. *)
Definition four_samples : list (option Sample) :=
  [ Some {| roundtrip := of_nat 10; s_offset := of_nat 1 |};
    Some {| roundtrip := of_nat 12; s_offset := of_nat 2 |};
    Some {| roundtrip := of_nat 11; s_offset := of_nat 3 |};
    Some {| roundtrip := of_nat 500; s_offset := of_nat 40 |} ].

(** A host that happens to bind the stray identifiers: [timestamp] to the
    peer's time, [len] and [sorted] to the length and the sorted copy of
    [3, 1, 2]. *)
Definition host_with_globals : Host :=
  {| math_sqrt := floor_sqrt;
     globals := {| g_len := Some (of_nat 3);
                   g_sorted := Some [of_nat 1; of_nat 2; of_nat 3];
                   g_timestamp := Some (of_nat 1000) |};
     clock := fun k => match k with O => of_nat 100 | _ => of_nat 120 end;
     host_send := fun _ _ => SendReturnsPromise;
     reacts := fun _ => [Deliver (Some (of_nat 1000))] |}.

(** Globals that bind [len] and [sorted] for the array [4, 1, 3, 2]. *)
Definition globals_for_4_1_3_2 : Globals :=
  {| g_len := Some (of_nat 4);
     g_sorted := Some [of_nat 1; of_nat 2; of_nat 3; of_nat 4];
     g_timestamp := None |}.

(** A condition and a callback for [whilst] that need no receiver: count up
    to [n]. *)
Definition below (n : nat) (this : option objref) (s : nat) : M bool :=
  ret (s <? n)%nat.

Definition count_up (this : option objref) (s : nat) : M nat :=
  ret (S s).

(** ** Further notions for the properties of the code *)

(** A rational that is a double: rounding leaves it as it is. *)
Definition representable (q : Q) : Prop :=
  match round q with
  | Fin r => (r == q)%Q
  | NaN | Inf _ => False
  end.

(** Adding the elements of [qs] to [a] one after the other never rounds. *)
Fixpoint sums_exact (a : Q) (qs : list Q) : Prop :=
  match qs with
  | [] => True
  | q :: rest => representable (a + q) /\ sums_exact (a + q)%Q rest
  end.

(** Zero, a positive number or plus infinity. *)
Definition not_negative (a : num) : Prop :=
  match a with
  | Fin q => (0 <= q)%Q
  | NaN => False
  | Inf negative => negative = false
  end.


(** Every pending request id was drawn from the counter of [nextId]. *)
Definition ids_below_counter (w : World) : Prop :=
  forall id : nat, is_Some (_inProgress w !! id) -> (id < _id w)%nat.

(** A host whose transport returns nothing (no promise). *)
Definition careless_host : Host :=
  {| math_sqrt := floor_sqrt;
     globals := no_globals;
     clock := fun k => of_nat (100 + 20 * k);
     host_send := fun _ _ => SendReturnsOther;
     reacts := fun _ => [] |}.

(** A request of [peer1] for our time, with an id of its own. *)
Definition request_7 : Envelope :=
  {| env_jsonrpc := Some "2.0"; env_id := Some 7; env_method := Some "timesync";
     env_params := None; env_result := None |}.

(** * Properties of stat.js *)

Lemma length_not_zero (n : nat) :
  Qzero_b (inject_Z (Z.of_nat (S n))) = false.
Proof. unfold Qzero_b. simpl. reflexivity. Qed.

(** Rounding does not look at how a rational is written. *)
Lemma round_Qeq (x y : Q) : (x == y)%Q -> round x = round y.
Proof.
  intros Heq. unfold round. rewrite (Qred_complete x y Heq). reflexivity.
Qed.

Lemma representable_round (q : Q) :
  representable q -> exists r : Q, round q = Fin r /\ (r == q)%Q.
Proof.
  unfold representable. destruct (round q) as [r | |]; [eauto | tauto | tauto].
Qed.

(** Where no addition rounds, [reduce(add)] is the sum. *)
Lemma sum_when_exact (qs : list Q) :
  forall a a' : Q,
    (a' == a)%Q ->
    sums_exact a qs ->
    exists r : Q,
      fold_left Stat.add (map Fin qs) (Fin a') = Fin r /\ (r == a + Qsum qs)%Q.
Proof.
  induction qs as [|q qs IH]; intros a a' Ha Hexact; cbn [map fold_left].
  - exists a'. split; [reflexivity |]. unfold Qsum. cbn [fold_right]. rewrite Ha. ring.
  - destruct Hexact as [Hsum Hrest].
    change (Stat.add (Fin a') (Fin q)) with (round (a' + q)).
    rewrite (round_Qeq (a' + q) (a + q)) by (rewrite Ha; reflexivity).
    destruct (representable_round _ Hsum) as (r0 & -> & Hr0).
    destruct (IH (a + q)%Q r0 Hr0 Hrest) as (r & Hr & Hreq).
    exists r. split; [exact Hr |].
    rewrite Hreq. unfold Qsum. cbn [fold_right]. ring.
Qed.

Lemma mean_when_exact (q : Q) (qs : list Q) :
  sums_exact q qs ->
  representable (arithmetic_mean (q :: qs)) ->
  exists r : Q,
    Stat.mean (map Fin (q :: qs)) = Ok (Fin r)
    /\ (r == arithmetic_mean (q :: qs))%Q.
Proof.
  intros Hexact Hmean.
  destruct (sum_when_exact qs q q (Qeq_refl q) Hexact) as (s & Hs & Hseq).
  destruct (representable_round _ Hmean) as (r & Hr & Hreq).
  exists r. split; [| exact Hreq].
  unfold Stat.mean, Stat.sum, Stat.reduce. cbn [map rbind].
  rewrite Hs. unfold ndiv, of_nat.
  cbn [length]. rewrite length_map, length_not_zero.
  rewrite <- Hr. f_equal. apply round_Qeq.
  unfold arithmetic_mean. rewrite Hseq. unfold Qsum. cbn [fold_right length]. reflexivity.
Qed.

(** C7, as the code has it.  [mean] adds the elements from left to right and
    divides the sum by the length, every operation rounded to the nearest
    double.  Where no operation rounds (each partial sum and the quotient
    are doubles), the result is the arithmetic mean; [mean([1,2,3])] is 2; on
    the empty list [mean] fails: the [reduce] inside [sum] throws. *)
Theorem mean_is_arithmetic_mean_when_exact :
  (forall (x : num) (xs : list num),
      Stat.mean (x :: xs)
      = Ok (ndiv (fold_left nadd xs x) (of_nat (length (x :: xs)))))
  /\ (forall (q : Q) (qs : list Q),
        sums_exact q qs ->
        representable (arithmetic_mean (q :: qs)) ->
        exists r : Q,
          Stat.mean (map Fin (q :: qs)) = Ok (Fin r)
          /\ (r == arithmetic_mean (q :: qs))%Q)
  /\ Stat.mean [of_nat 1; of_nat 2; of_nat 3] = Ok (of_nat 2)
  /\ Stat.mean [] = Throw (TypeError "Reduce of empty array with no initial value").
Proof.
  split; [reflexivity |].
  split; [exact mean_when_exact |].
  split; [vm_compute; reflexivity | reflexivity].
Qed.

Lemma mean_is_arithmetic_mean_when_exact_witness :
  sums_exact 1 [2; 3]%Q
  /\ representable (arithmetic_mean [1; 2; 3]%Q)
  /\ exists r : Q,
       Stat.mean (map Fin [1; 2; 3]%Q) = Ok (Fin r)
       /\ (r == arithmetic_mean [1; 2; 3]%Q)%Q.
Proof.
  assert (Hexact : sums_exact 1 [2; 3]%Q) by (vm_compute; repeat split).
  assert (Hmean : representable (arithmetic_mean [1; 2; 3]%Q)) by (vm_compute; reflexivity).
  split; [exact Hexact |]. split; [exact Hmean |].
  exact (proj1 (proj2 mean_is_arithmetic_mean_when_exact) 1%Q [2; 3]%Q Hexact Hmean).
Defined.

(** C7, read over the exact sum, fails where an addition rounds: 2^53 and 1
    are doubles, their mean comes out as 2^52, and that is not their
    arithmetic mean. *)
Lemma mean_rounds_the_sum :
  representable (inject_Z (2 ^ 53))
  /\ representable 1
  /\ Stat.mean (map Fin [inject_Z (2 ^ 53); 1%Q]) = Ok (Fin (inject_Z (2 ^ 52)))
  /\ ~ (exists r : Q,
          Stat.mean (map Fin [inject_Z (2 ^ 53); 1%Q]) = Ok (Fin r)
          /\ (r == arithmetic_mean [inject_Z (2 ^ 53); 1%Q])%Q).
Proof.
  assert (Hrun : Stat.mean (map Fin [inject_Z (2 ^ 53); 1%Q])
                 = Ok (Fin (inject_Z (2 ^ 52)))) by (vm_compute; reflexivity).
  split; [vm_compute; reflexivity |].
  split; [vm_compute; reflexivity |].
  split; [exact Hrun |].
  intros (r & Hr & Heq). rewrite Hrun in Hr. inversion Hr; subst r.
  vm_compute in Heq. discriminate Heq.
Qed.

(** [std] never throws: [variance] calls [mean] and [reduce] on arrays of at
    least two elements only. *)
Lemma variance_returns (arr : list num) : exists v, Stat.variance arr = Ok v.
Proof.
  unfold Stat.variance.
  destruct arr as [|x [|y rest]]; cbn; eauto.
Qed.

Lemma std_returns (sqrt : num -> num) (arr : list num) :
  exists v, Stat.std sqrt arr = Ok v.
Proof.
  unfold Stat.std. destruct (variance_returns arr) as (v & ->).
  cbn. eauto.
Qed.

(** C5.  Where the global object has no [len], [median] throws a
    ReferenceError on its first line, for every array, and leaves the array as
    it was: no median is computed. *)
Theorem median_throws_on_len (g : Globals) (arr : list num) :
  g_len g = None ->
  Stat.median g arr = (arr, Throw (ReferenceError "len")).
Proof.
  intros Hlen. unfold Stat.median. rewrite Hlen. reflexivity.
Qed.

Lemma median_throws_on_len_witness :
  g_len no_globals = None
  /\ Stat.median no_globals [of_nat 3; of_nat 1; of_nat 2]
     = ([of_nat 3; of_nat 1; of_nat 2], Throw (ReferenceError "len")).
Proof.
  split; [reflexivity |].
  apply (median_throws_on_len no_globals [of_nat 3; of_nat 1; of_nat 2]).
  reflexivity.
Defined.

(** The second example of the specification fares the same. *)
Example median_4_1_3_2 :
  snd (Stat.median no_globals [of_nat 4; of_nat 1; of_nat 3; of_nat 2])
  = Throw (ReferenceError "len").
Proof. reflexivity. Qed.

(** * Properties of timesync.js *)

Section TimeSyncFacts.

Variable h : Host.

(** ** The constructor and [receive] *)

(** C8.  With [server] and [peers] both truthy the constructor throws the
    configuration error and yields no instance; otherwise the check is
    passed and the constructor does not throw that error. *)
Theorem constructor_checks_server_and_peers (raw : TimeSync.RawOptions) :
  (truthy (TimeSync.prop (TimeSync.raw_server raw)) = true ->
   truthy (TimeSync.prop (TimeSync.raw_peers raw)) = true ->
   TimeSync.constructor raw = Throw (Error TimeSync.configuration_message))
  /\
  (truthy (TimeSync.prop (TimeSync.raw_server raw))
   && truthy (TimeSync.prop (TimeSync.raw_peers raw)) = false ->
   TimeSync.constructor_guard raw = Ok tt
   /\ TimeSync.constructor raw <> Throw (Error TimeSync.configuration_message)).
Proof.
  unfold TimeSync.constructor, TimeSync.constructor_guard.
  split.
  - intros Hs Hp. rewrite Hs, Hp. reflexivity.
  - intros Hnot. rewrite Hnot. cbn. split; [reflexivity | discriminate].
Qed.

(** C9.  [receive(e)] does what [receive(undefined, e)] does, whatever [e]
    is. *)
Theorem receive_with_one_argument (e : value) (w : World) :
  TimeSync.receive h e VUndefined w = TimeSync.receive h VUndefined e w.
Proof.
  unfold TimeSync.receive.
  destruct e; reflexivity.
Qed.

(** ** The pending requests *)

(** A call whose transport returns a promise is registered under a fresh id
    and stays pending. *)
Lemma rpc_registers (to : value) (method : string) (params : option string) (w : World) :
  (forall msg, host_send h to msg = SendReturnsPromise) ->
  exists w',
    TimeSync.rpc h to method params w = Ret (_id w) w'
    /\ _inProgress w' !! _id w = Some {| captured_id := _id w |}
    /\ deferreds w' !! _id w = Some Pending
    /\ _id w ∈ catching w'.
Proof.
  intros Hsend. unfold TimeSync.rpc, TimeSync.send, bind, try_, modify, Util.nextId.
  cbn. rewrite Hsend. cbn.
  eexists. split; [reflexivity |]. cbn.
  rewrite !lookup_insert_eq. repeat split; try reflexivity. set_solver.
Qed.

(** A call whose transport throws is taken back at once: the entry is
    removed and the promise is rejected with the send failure. *)
Lemma rpc_send_throws (to : value) (method : string) (params : option string)
    (err : JsError) (w : World) :
  (forall msg, host_send h to msg = SendThrows err) ->
  exists w',
    TimeSync.rpc h to method params w = Ret (_id w) w'
    /\ _inProgress w' !! _id w = None
    /\ deferreds w' !! _id w = Some (Rejected (Error "Send failure")).
Proof.
  intros Hsend.
  unfold TimeSync.rpc, TimeSync.send, TimeSync._handleRPCSendError,
    TimeSync.settle_deferred, bind, try_, modify, Util.nextId.
  cbn. rewrite Hsend. cbn.
  rewrite lookup_insert_eq. cbn.
  eexists. split; [reflexivity |]. cbn.
  rewrite lookup_delete_eq, lookup_insert_eq. split; reflexivity.
Qed.

(** When the promise returned by the transport rejects, the catch handler
    removes the entry and rejects the call. *)
Lemma send_promise_rejects_removes (id : nat) (w : World) :
  id ∈ catching w ->
  deferreds w !! id = Some Pending ->
  exists w',
    TimeSync.send_promise_rejects id w = Ret tt w'
    /\ _inProgress w' !! id = None
    /\ deferreds w' !! id = Some (Rejected (Error "Send failure")).
Proof.
  intros Hin Hpending.
  unfold TimeSync.send_promise_rejects, TimeSync._handleRPCSendError,
    TimeSync.settle_deferred, bind, gets, modify.
  rewrite bool_decide_eq_true_2 by exact Hin. cbn.
  rewrite Hpending. cbn.
  eexists. split; [reflexivity |]. cbn.
  rewrite lookup_delete_eq, lookup_insert_eq. split; reflexivity.
Qed.

(** C4.  An envelope whose id is pending makes [receive] call the stored
    function with the pending-request object as receiver; its first
    statement throws, so [receive] throws and the world is as before: the
    entry is still there and the promise of the call is untouched. *)
Theorem receive_of_a_reply_throws (from : value) (e : Envelope) (id : nat)
    (hd : Handler) (w : World) :
  env_id e = Some id ->
  _inProgress w !! id = Some hd ->
  TimeSync.receive h from (VObj e) w = Exc (TypeError "this._inProgress") w.
Proof.
  intros Hid Hpending.
  unfold TimeSync.receive, bind, gets. cbn.
  rewrite Hid. cbn. rewrite Hpending. reflexivity.
Qed.

End TimeSyncFacts.

Lemma receive_of_a_reply_throws_witness :
  _inProgress instance_with_pending_call !! 0 = Some {| captured_id := 0 |}
  /\ deferreds instance_with_pending_call !! 0 = Some Pending
  /\ TimeSync.receive answering_host (VStr "peer1") (VObj reply_to_0)
       instance_with_pending_call
     = Exc (TypeError "this._inProgress") instance_with_pending_call.
Proof.
  split; [vm_compute; reflexivity |].
  split; [vm_compute; reflexivity |].
  apply (receive_of_a_reply_throws answering_host (VStr "peer1") reply_to_0 0
           {| captured_id := 0 |} instance_with_pending_call).
  - reflexivity.
  - vm_compute; reflexivity.
Defined.

Lemma constructor_checks_server_and_peers_witness :
  TimeSync.constructor server_and_peers = Throw (Error TimeSync.configuration_message)
  /\ TimeSync.constructor_guard one_server = Ok tt
  /\ TimeSync.constructor_guard two_peers = Ok tt.
Proof.
  split.
  - apply (proj1 (constructor_checks_server_and_peers server_and_peers)); reflexivity.
  - split.
    + apply (proj2 (constructor_checks_server_and_peers one_server)). reflexivity.
    + apply (proj2 (constructor_checks_server_and_peers two_peers)). reflexivity.
Defined.

(** The message of the configuration error, character by character. *)
Example configuration_message_text :
  list_ascii_of_string TimeSync.configuration_message
  = map ascii_of_nat
      [67; 111; 110; 102; 105; 103; 117; 114; 101; 32; 101; 105; 116; 104;
       101; 114; 32; 111; 112; 116; 105; 111; 110; 32; 34; 112; 101; 101;
       114; 115; 34; 32; 111; 114; 32; 34; 115; 101; 114; 118; 101; 114; 34;
       44; 32; 110; 111; 116; 32; 98; 111; 116; 104; 46].
Proof. reflexivity. Qed.

(** ** The sampler *)

Section SamplerFacts.

Variable h : Host.

(** *** What [_getOffset] can return *)

Lemma getOffset_after_resolved (start : num) (v : option num) (w : World) :
  g_timestamp (globals h) = None ->
  TimeSync._getOffset_after h start (Ok v) w
  = Exc (ReferenceError "timestamp") (set_ticks (S (ticks w)) w).
Proof.
  intros Hts. unfold TimeSync._getOffset_after, TimeSync.options_now, bind.
  rewrite Hts. reflexivity.
Qed.

Lemma getOffset_after_rejected (start : num) (e : JsError) (w : World) :
  TimeSync._getOffset_after h start (Throw e) w = Ret None w.
Proof. reflexivity. Qed.

(** C2.  Where the global object has no [timestamp], [_getOffset] returns a
    sample on no exchange at all: when the awaited call resolves, the offset
    formula throws a ReferenceError, and otherwise there is nothing to
    compute from. *)
Theorem getOffset_returns_no_sample (peer : value) (w : World) :
  g_timestamp (globals h) = None ->
  forall (s : Sample) (w' : World),
    TimeSync._getOffset h peer w <> Ret (Some s) w'.
Proof.
  intros Hts s w'. unfold TimeSync._getOffset.
  unfold bind at 1. unfold TimeSync.options_now at 1.
  unfold bind at 1. unfold try_ at 1.
  destruct (bind _ _ _) as [v w2 | e w2 | w2 |].
  - rewrite getOffset_after_resolved by exact Hts. discriminate.
  - rewrite getOffset_after_rejected. discriminate.
  - discriminate.
  - discriminate.
Qed.

(** When the peer answers, [receive] throws in the host's code (C4), the
    promise of the call stays pending and [_getOffset] never resumes. *)
Lemma getOffset_hangs_on_a_reply (peer : value) (result : option num) (w : World) :
  (forall msg, host_send h peer msg = SendReturnsPromise) ->
  reacts h (_id w) = [Deliver result] ->
  exists w',
    TimeSync._getOffset h peer w = Stuck w'
    /\ _inProgress w' !! _id w = Some {| captured_id := _id w |}
    /\ deferreds w' !! _id w = Some Pending.
Proof.
  intros Hsend Hreacts.
  unfold TimeSync._getOffset, TimeSync.rpc, TimeSync.await, TimeSync.send,
    TimeSync.options_now, Util.nextId, bind, try_, modify.
  cbn. rewrite Hsend. cbn. rewrite Hreacts.
  unfold TimeSync.host_turn, TimeSync.host_action, TimeSync.host_calls,
    TimeSync.receive, bind, gets.
  cbn. rewrite lookup_insert_eq. cbn. rewrite lookup_insert_eq.
  eexists. split; [reflexivity |]. cbn.
  rewrite !lookup_insert_eq. split; reflexivity.
Qed.

(** A call whose transport throws gives [null], as intended. *)
Lemma getOffset_of_a_failed_send (peer : value) (err : JsError) (w : World) :
  (forall msg, host_send h peer msg = SendThrows err) ->
  reacts h (_id w) = [] ->
  exists w', TimeSync._getOffset h peer w = Ret None w'.
Proof.
  intros Hsend Hreacts.
  unfold TimeSync._getOffset, TimeSync.rpc, TimeSync.await, TimeSync.send,
    TimeSync._handleRPCSendError, TimeSync.settle_deferred,
    TimeSync.options_now, Util.nextId, bind, try_, modify.
  cbn. rewrite Hsend. cbn. rewrite lookup_insert_eq. cbn. rewrite Hreacts. cbn.
  rewrite lookup_insert_eq. cbn. eexists. reflexivity.
Qed.

(** *** What [_getOffset] can change *)

Lemma keeps_ret {A} (a : A) : keeps_applied (ret a).
Proof. intros w. reflexivity. Qed.

Lemma keeps_throw {A} (e : JsError) : keeps_applied (@throw A e).
Proof. intros w. reflexivity. Qed.

Lemma keeps_gets {A} (f : World -> A) : keeps_applied (gets f).
Proof. intros w. reflexivity. Qed.

Lemma keeps_modify (f : World -> World) :
  (forall w, applied (f w) = applied w) -> keeps_applied (modify f).
Proof. intros Hf w. apply Hf. Qed.

Lemma keeps_bind {A B} (m : M A) (k : A -> M B) :
  keeps_applied m -> (forall a, keeps_applied (k a)) -> keeps_applied (bind m k).
Proof.
  intros Hm Hk w. unfold bind.
  specialize (Hm w).
  destruct (m w) as [a w1 | e w1 | w1 |]; cbn in *; try exact Hm; try reflexivity.
  specialize (Hk a w1).
  destruct (k a w1); cbn in *; congruence.
Qed.

Lemma keeps_try {A} (m : M A) : keeps_applied m -> keeps_applied (try_ m).
Proof.
  intros Hm w. specialize (Hm w). unfold try_.
  destruct (m w); exact Hm.
Qed.

Lemma keeps_host_calls {A} (m : M A) :
  keeps_applied m -> keeps_applied (TimeSync.host_calls m).
Proof.
  intros Hm w. specialize (Hm w). unfold TimeSync.host_calls.
  destruct (m w); exact Hm.
Qed.

Lemma keeps_on_instance {A} (this : option objref) (expr : string) (k : M A) :
  keeps_applied k -> keeps_applied (on_instance this expr k).
Proof.
  intros Hk. destruct this as [[|]|]; cbn; [exact Hk | apply keeps_throw ..].
Qed.

Lemma keeps_options_now : keeps_applied (TimeSync.options_now h).
Proof. intros w. reflexivity. Qed.

Lemma keeps_nextId : keeps_applied Util.nextId.
Proof. intros w. reflexivity. Qed.

Lemma keeps_settle_deferred (id : nat) (s : Settlement (option num)) :
  keeps_applied (TimeSync.settle_deferred id s).
Proof.
  apply keeps_modify. intros w.
  destruct (deferreds w !! id) as [[| |]|]; reflexivity.
Qed.

Lemma keeps_send (to : value) (data : Envelope) :
  keeps_applied (TimeSync.send h to data).
Proof.
  unfold TimeSync.send. apply keeps_bind.
  - apply keeps_modify. reflexivity.
  - intros _. destruct (host_send h to data);
      [apply keeps_throw | apply keeps_ret | apply keeps_ret].
Qed.

Lemma keeps_handleRPCSendError (id : nat) :
  keeps_applied (TimeSync._handleRPCSendError id).
Proof.
  unfold TimeSync._handleRPCSendError. apply keeps_bind.
  - apply keeps_modify. reflexivity.
  - intros _. apply keeps_settle_deferred.
Qed.

Lemma keeps_rpc (to : value) (method : string) (params : option string) :
  keeps_applied (TimeSync.rpc h to method params).
Proof.
  unfold TimeSync.rpc.
  apply keeps_bind; [apply keeps_nextId | intros id].
  apply keeps_bind; [apply keeps_modify; reflexivity | intros _].
  apply keeps_bind; [apply keeps_modify; reflexivity | intros _].
  apply keeps_bind; [apply keeps_try, keeps_send | intros sent].
  apply keeps_bind.
  - destruct sent; [apply keeps_ret |].
    apply keeps_bind; [apply keeps_handleRPCSendError | intros _; apply keeps_ret].
  - intros sendResult.
    apply keeps_bind; [| intros _; apply keeps_ret].
    destruct sendResult; apply keeps_modify; reflexivity.
Qed.

Lemma keeps_completion (hd : Handler) (this : option objref) (data : option num) :
  keeps_applied (TimeSync.completion hd this data).
Proof.
  unfold TimeSync.completion. apply keeps_bind.
  - apply keeps_on_instance, keeps_modify. reflexivity.
  - intros _. apply keeps_settle_deferred.
Qed.

Lemma keeps_now : keeps_applied (TimeSync.now h).
Proof.
  unfold TimeSync.now.
  apply keeps_bind; [apply keeps_options_now | intros t].
  apply keeps_bind; [apply keeps_gets | intros o; apply keeps_ret].
Qed.

Lemma keeps_receive (from data : value) :
  keeps_applied (TimeSync.receive h from data).
Proof.
  unfold TimeSync.receive.
  destruct (is_undefined data).
  - apply keeps_bind; [apply keeps_gets | intros m].
    destruct (if truthy from then _ else _).
    + apply keeps_completion.
    + destruct (truthy from && _); [| apply keeps_ret].
      apply keeps_bind; [apply keeps_now | intros t].
      apply keeps_bind; [apply keeps_send | intros _; apply keeps_ret].
  - apply keeps_bind; [apply keeps_gets | intros m].
    destruct (if truthy data then _ else _).
    + apply keeps_completion.
    + destruct (truthy data && _); [| apply keeps_ret].
      apply keeps_bind; [apply keeps_now | intros t].
      apply keeps_bind; [apply keeps_send | intros _; apply keeps_ret].
Qed.

Lemma keeps_send_promise_rejects (id : nat) :
  keeps_applied (TimeSync.send_promise_rejects id).
Proof.
  unfold TimeSync.send_promise_rejects.
  apply keeps_bind; [apply keeps_gets | intros c].
  destruct (bool_decide (id ∈ c));
    [apply keeps_handleRPCSendError | apply keeps_ret].
Qed.

Lemma keeps_host_turn (peer : value) (id : nat) (actions : list HostAction) :
  keeps_applied (TimeSync.host_turn h peer id actions).
Proof.
  induction actions as [|a rest IH]; [apply keeps_ret |].
  cbn [TimeSync.host_turn]. apply keeps_bind; [| intros _; exact IH].
  destruct a; cbn [TimeSync.host_action].
  - apply keeps_host_calls, keeps_receive.
  - apply keeps_send_promise_rejects.
Qed.

Lemma keeps_await (peer : value) (id : nat) :
  keeps_applied (TimeSync.await h peer id).
Proof.
  unfold TimeSync.await.
  apply keeps_bind; [apply keeps_host_turn | intros _].
  intros w. destruct (deferreds w !! id) as [[| |]|]; reflexivity.
Qed.

Lemma keeps_getOffset_after (start : num) (awaited : Result (option num)) :
  g_timestamp (globals h) = None ->
  keeps_applied (TimeSync._getOffset_after h start awaited).
Proof.
  intros Hts w. destruct awaited as [v | e].
  - rewrite getOffset_after_resolved by exact Hts. reflexivity.
  - reflexivity.
Qed.

(** C6.  Where the global object has no [timestamp], [_getOffset] applies
    nothing, whatever the exchange and however it ends: the offset is as
    before, [_isFirst] is as before (still set on an instance that never
    applied a sample) and no [change] is emitted. *)
Theorem getOffset_applies_no_first_sample (peer : value) (w : World) :
  g_timestamp (globals h) = None ->
  let w' := world_after (TimeSync._getOffset h peer w) w in
  offset w' = offset w /\ _isFirst w' = _isFirst w /\ events w' = events w.
Proof.
  intros Hts w'.
  assert (Hkeeps : keeps_applied (TimeSync._getOffset h peer)).
  { unfold TimeSync._getOffset.
    apply keeps_bind; [apply keeps_options_now | intros start].
    apply keeps_bind; [| intros awaited; apply keeps_getOffset_after, Hts].
    apply keeps_try, keeps_bind; [apply keeps_rpc | intros id; apply keeps_await]. }
  specialize (Hkeeps w). fold w' in Hkeeps. unfold applied in Hkeeps.
  inversion Hkeeps. repeat split.
Qed.

(** *** The rounds *)

(** [sync], the function declared inside [_syncWithPeer], is called as
    [sync()]: it has no receiver and throws at [this._getOffset]. *)
Lemma inner_sync_without_receiver (peer : value) (all : list (option Sample)) (w : World) :
  TimeSync._syncWithPeer_sync h peer None all w = Exc (TypeError "this._getOffset") w.
Proof. reflexivity. Qed.

Lemma syncWithPeer_rejects (fuel : nat) (peer : value) (w : World) :
  TimeSync._syncWithPeer h fuel peer w = Exc (TypeError "this._getOffset") w.
Proof.
  unfold TimeSync._syncWithPeer, bind.
  rewrite inner_sync_without_receiver. reflexivity.
Qed.

(** C10.  Whatever [repeat] is, [_syncWithPeer] rejects at its first
    [await sync()]: the clock is not read, no request id is drawn, nothing is
    sent and nothing is waited for, so no sampling attempt takes place. *)
Theorem syncWithPeer_makes_no_attempt (fuel : nat) (peer : value) (w : World) :
  exists w',
    TimeSync._syncWithPeer h fuel peer w = Exc (TypeError "this._getOffset") w'
    /\ ticks w' = ticks w
    /\ _id w' = _id w
    /\ outbox w' = outbox w
    /\ waits w' = waits w.
Proof.
  exists w. rewrite syncWithPeer_rejects. repeat split.
Qed.

(** The condition of the loop, once called by [whilst], has no receiver
    either. *)
Lemma whilst_notDone_without_receiver (fuel : nat) (peer : value)
    (all : list (option Sample)) (w : World) :
  Util.whilst (S fuel) TimeSync._syncWithPeer_notDone
    (TimeSync._syncWithPeer_waitAndSync h peer) all w
  = Exc (TypeError "this.options") w.
Proof. reflexivity. Qed.

(** C3.  Where the global object has no [len], the reduction of the
    collected results throws the ReferenceError of [median], whatever was
    collected: neither a mean nor [null] is returned. *)
Theorem reduce_results_throws (all : list (option Sample)) :
  g_len (globals h) = None ->
  TimeSync.reduce_results h all = Throw (ReferenceError "len").
Proof.
  intros Hlen. unfold TimeSync.reduce_results.
  destruct (std_returns (math_sqrt h) (map roundtrip (omap id all))) as (sd & ->).
  cbn [rbind]. unfold Stat.median. rewrite Hlen. reflexivity.
Qed.

(** Every peer of a round gets a promise that is already rejected, and the
    world does not change. *)
Lemma started_peers_reject (fuel : nat) (peers : list value) (w : World) :
  TimeSync.mapM (fun peer => start_async (TimeSync._syncWithPeer h fuel peer)) peers w
  = Ret (map (fun _ => Rejected (TypeError "this._getOffset")) peers) w.
Proof.
  induction peers as [|peer peers IH]; [reflexivity |].
  cbn [TimeSync.mapM map]. unfold bind at 1. unfold start_async at 1.
  rewrite syncWithPeer_rejects. unfold bind at 1. rewrite IH. reflexivity.
Qed.

(** C1.  [sync] emits [sync] [start] and then throws a TypeError, on every
    instance: at [peers.map] when the peers are no array, else at
    [all.filter], [all] being a promise.  Nothing else has changed: no
    [change], no [sync] [end], the offset as before. *)
Theorem sync_stops_after_start (fuel : nat) (w : World) :
  exists what,
    TimeSync.sync h fuel w
    = Exc (TypeError what)
        (set_events (events w ++ [{| ev_name := "sync"; ev_payload := VStr "start" |}]) w).
Proof.
  unfold TimeSync.sync.
  unfold bind at 1. unfold emit at 1, modify at 1.
  unfold bind at 1. unfold gets at 1. cbn [options set_events].
  unfold bind at 1.
  destruct (TimeSync.peers_of (options w)) as [peers | e] eqn:Hpeers.
  - cbn [lift ret]. unfold bind at 1.
    rewrite started_peers_reject. unfold bind at 1. cbn.
    eexists. reflexivity.
  - unfold TimeSync.peers_of in Hpeers.
    destruct (truthy (opt_server (options w))); [discriminate |].
    destruct (opt_peers (options w)); inversion Hpeers; subst;
      cbn; eexists; reflexivity.
Qed.

End SamplerFacts.

Lemma reduce_results_throws_witness :
  g_len (globals answering_host) = None
  /\ TimeSync.reduce_results answering_host four_samples
     = Throw (ReferenceError "len").
Proof.
  split; [reflexivity |].
  apply (reduce_results_throws answering_host four_samples). reflexivity.
Defined.

Lemma getOffset_returns_no_sample_witness :
  clock answering_host 0 = of_nat 100
  /\ clock answering_host 1 = of_nat 120
  /\ reacts answering_host 0 = [Deliver (Some (of_nat 1000))]
  /\ forall w',
       TimeSync._getOffset answering_host (VStr "peer1") instance_with_two_peers
       <> Ret (Some {| roundtrip := of_nat 20; s_offset := of_nat 890 |}) w'.
Proof.
  repeat (split; [reflexivity |]).
  apply (getOffset_returns_no_sample answering_host (VStr "peer1")
           instance_with_two_peers).
  reflexivity.
Defined.

Lemma getOffset_applies_no_first_sample_witness :
  _isFirst instance_with_two_peers = true
  /\ (let w' :=
        world_after
          (TimeSync._getOffset answering_host (VStr "peer1") instance_with_two_peers)
          instance_with_two_peers in
      offset w' = offset instance_with_two_peers
      /\ _isFirst w' = _isFirst instance_with_two_peers
      /\ events w' = events instance_with_two_peers).
Proof.
  split; [reflexivity |].
  apply (getOffset_applies_no_first_sample answering_host (VStr "peer1")
           instance_with_two_peers).
  reflexivity.
Defined.

(** The exchange of the specification (start 100, peer's time 1000, end 120)
    on a fresh instance: the call is still pending and no sample comes
    back. *)
Example getOffset_on_the_example_exchange :
  exists w',
    TimeSync._getOffset answering_host (VStr "peer1") instance_with_two_peers
    = Stuck w'
    /\ applied w' = (of_nat 0, true, [])
    /\ _inProgress w' !! 0 = Some {| captured_id := 0 |}
    /\ deferreds w' !! 0 = Some Pending.
Proof.
  vm_compute. eexists. split; [reflexivity |]. repeat split; reflexivity.
Qed.

(** [sync] on the instance with two peers. *)
Example sync_with_two_peers :
  TimeSync.sync answering_host 10 instance_with_two_peers
  = Exc (TypeError "all.filter is not a function")
      (set_events [{| ev_name := "sync"; ev_payload := VStr "start" |}]
         instance_with_two_peers).
Proof. reflexivity. Qed.

(** [sync] when no peer can be reached. *)
Example sync_with_unreachable_peers :
  TimeSync.sync unreachable_host 10 instance_with_two_peers
  = Exc (TypeError "all.filter is not a function")
      (set_events [{| ev_name := "sync"; ev_payload := VStr "start" |}]
         instance_with_two_peers).
Proof. reflexivity. Qed.

(** * What the slips hide *)

(** [whilst] runs its callback as long as the condition holds and then
    returns, given fuel for the iterations. *)
Lemma whilst_counts (n : nat) (w : World) :
  forall (fuel s : nat),
    (n - s < fuel)%nat ->
    Util.whilst fuel (below n) count_up s w = Ret (Nat.max s n) w.
Proof.
  induction fuel as [|fuel IH]; intros s Hfuel; [lia |].
  cbn [Util.whilst]. unfold bind at 1, below at 1, ret at 1.
  destruct (s <? n)%nat eqn:Hlt.
  - apply Nat.ltb_lt in Hlt.
    unfold bind at 1, count_up at 1, ret at 1.
    rewrite IH by lia. f_equal. lia.
  - apply Nat.ltb_ge in Hlt. unfold ret. f_equal. lia.
Qed.

(** With [len] and [sorted] bound to what their names promise, the body of
    [median] gives the medians of the specification. *)
Example median_3_1_2_with_globals :
  Stat.median (globals host_with_globals) [of_nat 3; of_nat 1; of_nat 2]
  = ([of_nat 1; of_nat 2; of_nat 3], Ok (Some (of_nat 2))).
Proof. reflexivity. Qed.

Example median_4_1_3_2_with_globals :
  Stat.median globals_for_4_1_3_2 [of_nat 4; of_nat 1; of_nat 3; of_nat 2]
  = ([of_nat 1; of_nat 2; of_nat 3; of_nat 4], Ok (Some (Fin (5 # 2)))).
Proof. reflexivity. Qed.

(** With a global [timestamp] equal to the peer's time and the call resolved,
    the rest of [_getOffset] gives the round trip 20 and the offset 890 and
    applies the first offset. *)
Example getOffset_after_with_global_timestamp :
  exists w',
    TimeSync._getOffset_after host_with_globals (of_nat 100)
      (Ok (Some (of_nat 1000))) (set_ticks 1 instance_with_two_peers)
    = Ret (Some {| roundtrip := of_nat 20; s_offset := of_nat 890 |}) w'
    /\ applied w'
       = (of_nat 890, false,
          [{| ev_name := "change"; ev_payload := VNum (of_nat 890) |}]).
Proof.
  vm_compute. eexists. split; reflexivity.
Qed.

(** Called on the instance, the function stored by [rpc] removes the entry
    and resolves the call with the result. *)
Lemma completion_on_the_instance (id : nat) (data : option num) (w : World) :
  deferreds w !! id = Some Pending ->
  exists w',
    TimeSync.completion {| captured_id := id |} (Some TheInstance) data w = Ret tt w'
    /\ _inProgress w' !! id = None
    /\ deferreds w' !! id = Some (Resolved data).
Proof.
  intros Hpending.
  unfold TimeSync.completion, TimeSync.settle_deferred, bind, modify.
  cbn. rewrite Hpending.
  eexists. split; [reflexivity |]. cbn.
  rewrite lookup_delete_eq, lookup_insert_eq. split; reflexivity.
Qed.

(** * Further properties of stat.js *)

Lemma rounded_significand_not_negative (n den : Z) :
  (0 <= n)%Z -> (0 < den)%Z ->
  (0 <= (if (2 * (n mod den) <? den)%Z then (n / den)%Z
         else if (den <? 2 * (n mod den))%Z then (n / den + 1)%Z
         else if Z.even (n / den) then (n / den)%Z else (n / den + 1)%Z))%Z.
Proof.
  intros Hn Hden.
  assert (Hfl : (0 <= n / den)%Z) by (apply Z.div_pos; assumption).
  destruct (2 * (n mod den) <? den)%Z; [exact Hfl |].
  destruct (den <? 2 * (n mod den))%Z; [lia |].
  destruct (Z.even (n / den)); lia.
Qed.

Lemma round_magnitude_not_negative (a d : Z) (m : Q) :
  (0 < a)%Z -> (0 < d)%Z -> round_magnitude a d = Some m -> (0 <= m)%Q.
Proof.
  intros Ha Hd. unfold round_magnitude.
  set (e := if (if (0 <=? Z.log2 a - Z.log2 d)%Z then _ else _) : bool
            then _ else _).
  set (k := Z.max (e - 52) (-1074)).
  destruct (Z.leb_spec 0 k) as [Hk | Hk]; cbv iota.
  - assert (Hpow : (0 < 2 ^ k)%Z) by (apply Z.pow_pos_nonneg; lia).
    pose proof (rounded_significand_not_negative a (d * 2 ^ k)%Z) as Hsig.
    cbv zeta in Hsig.
    set (significand := if (2 * (a mod (d * 2 ^ k)) <? d * 2 ^ k)%Z then _ else _)
      in Hsig |- *.
    assert (Hs : (0 <= significand)%Z) by (apply Hsig; nia).
    destruct (2 ^ 1024 <=? significand * 2 ^ k)%Z; [discriminate |].
    intros Hm. inversion Hm; subst m.
    unfold Qle. cbn. nia.
  - assert (Hpow : (0 < 2 ^ (- k))%Z) by (apply Z.pow_pos_nonneg; lia).
    pose proof (rounded_significand_not_negative (a * 2 ^ (- k))%Z d) as Hsig.
    set (significand := if (2 * ((a * 2 ^ (- k)) mod d) <? d)%Z then _ else _)
      in Hsig |- *.
    assert (Hs : (0 <= significand)%Z) by (apply Hsig; nia).
    intros Hm. inversion Hm; subst m.
    rewrite Qred_correct. unfold Qle. cbn. lia.
Qed.

Lemma round_not_negative (q : Q) : (0 <= q)%Q -> not_negative (round q).
Proof.
  intros Hq. unfold round.
  assert (Hr : (0 <= Qred q)%Q) by (rewrite Qred_correct; exact Hq).
  destruct (Qred q) as [n d]. cbn [Qnum Qden].
  unfold Qle in Hr. cbn in Hr.
  destruct (Z.compare_spec n 0) as [Hn | Hn | Hn].
  - cbn. apply Qle_refl.
  - lia.
  - destruct (round_magnitude n (Z.pos d)) as [m |] eqn:Hm; cbn; [| reflexivity].
    apply (round_magnitude_not_negative n (Z.pos d) m); [lia | lia | exact Hm].
Qed.

Lemma round_is_a_number (q : Q) : isNaN (round q) = false.
Proof.
  unfold round. destruct (Qnum (Qred q) ?= 0)%Z; [reflexivity | |];
    destruct (round_magnitude _ _); reflexivity.
Qed.

Lemma nadd_not_negative (a b : num) :
  not_negative a -> not_negative b -> not_negative (nadd a b).
Proof.
  destruct a as [x | | s], b as [y | | t]; cbn [not_negative nadd];
    try tauto; intros Ha Hb; subst; try reflexivity.
  apply round_not_negative.
  replace 0%Q with (0 + 0)%Q by reflexivity. apply Qplus_le_compat; assumption.
Qed.

Lemma sum_not_negative (l : list num) :
  Forall not_negative l ->
  forall a : num, not_negative a -> not_negative (fold_left Stat.add l a).
Proof.
  induction 1 as [|x l Hx _ IH]; intros a Ha; [exact Ha |].
  cbn [fold_left]. apply IH. apply nadd_not_negative; assumption.
Qed.

Lemma square_not_negative (a : num) : isNaN a = false -> not_negative (nmul a a).
Proof.
  destruct a as [[n d] | | s]; cbn [nmul not_negative isNaN]; [| discriminate |].
  - intros _. apply round_not_negative. unfold Qle, Qmult. cbn. nia.
  - intros _. destruct s; reflexivity.
Qed.

Lemma quotient_not_negative (a : num) (n : nat) :
  not_negative a -> not_negative (ndiv a (of_nat (S n))).
Proof.
  unfold of_nat. destruct a as [x | | s]; cbn [not_negative]; [| tauto |].
  - intros Hx. unfold ndiv. rewrite length_not_zero.
    apply round_not_negative. unfold Qdiv.
    apply Qmult_le_0_compat; [exact Hx |].
    apply Qinv_le_0_compat. unfold Qle. cbn. lia.
  - intros ->. reflexivity.
Qed.

Lemma sum_is_a_number (qs : list Q) :
  forall a : num, isNaN a = false ->
    isNaN (fold_left Stat.add (map Fin qs) a) = false.
Proof.
  induction qs as [|q qs IH]; intros a Ha; [exact Ha |].
  cbn [map fold_left]. apply IH.
  destruct a as [x | | s]; [apply round_is_a_number | discriminate | reflexivity].
Qed.

Lemma mean_is_a_number (q : Q) (qs : list Q) :
  exists m : num, Stat.mean (map Fin (q :: qs)) = Ok m /\ isNaN m = false.
Proof.
  unfold Stat.mean, Stat.sum, Stat.reduce. cbn [map rbind length].
  eexists. split; [reflexivity |].
  pose proof (sum_is_a_number qs (Fin q) eq_refl) as Hsum.
  unfold of_nat. rewrite length_map.
  destruct (fold_left Stat.add (map Fin qs) (Fin q)) as [x | | s];
    [| discriminate | reflexivity].
  unfold ndiv. rewrite length_not_zero.
  destruct (Qzero_b x); apply round_is_a_number.
Qed.

Lemma distance_is_a_number (q : Q) (m : num) :
  isNaN m = false -> isNaN (nsub (Fin q) m) = false.
Proof.
  destruct m as [y | | s]; [| discriminate |]; intros _.
  - apply round_is_a_number.
  - reflexivity.
Qed.

(** X1.  On finite numbers [variance] never returns NaN or a negative
    number: the result is zero, a positive number or plus infinity. *)
Theorem variance_is_never_negative (qs : list Q) :
  exists v : num, Stat.variance (map Fin qs) = Ok v /\ not_negative v.
Proof.
  destruct qs as [|q1 [|q2 qs]].
  - exists (of_nat 0). split; [reflexivity | apply Qle_refl].
  - exists (of_nat 0). split; [reflexivity | apply Qle_refl].
  - set (l := q1 :: q2 :: qs).
    destruct (mean_is_a_number q1 (q2 :: qs)) as (m & Hmean & Hm). fold l in Hmean.
    unfold Stat.variance. rewrite Hmean.
    unfold l at 1. cbn [map length Nat.ltb Nat.leb rbind].
    set (square := fun x => nmul (nsub x m) (nsub x m)).
    assert (Hsquares : Forall not_negative (map square (map Fin l))).
    { apply List.Forall_forall. intros y Hy.
      apply in_map_iff in Hy as (x & <- & Hx).
      apply in_map_iff in Hx as (q & <- & _).
      apply square_not_negative, distance_is_a_number, Hm. }
    unfold l in Hsquares |- *. cbn [map] in Hsquares |- *.
    inversion Hsquares as [|y ys Hy Hys]; subst.
    unfold Stat.reduce. cbn [rbind length Nat.sub].
    eexists. split; [reflexivity |].
    apply quotient_not_negative, sum_not_negative; assumption.
Qed.

(** X2.  [variance] and [std] never throw, not even on the empty array where
    [sum] and [mean] do; on fewer than two elements the variance is 0, and
    [std] is the square root of what [variance] returns. *)
Theorem variance_and_std_never_throw :
  Stat.variance [] = Ok (of_nat 0)
  /\ (forall x : num, Stat.variance [x] = Ok (of_nat 0))
  /\ (forall (sqrt : num -> num) (arr : list num),
        exists v, Stat.variance arr = Ok v /\ Stat.std sqrt arr = Ok (sqrt v)).
Proof.
  split; [reflexivity |]. split; [reflexivity |].
  intros sqrt arr. destruct (variance_returns arr) as (v & Hv).
  exists v. split; [exact Hv |]. unfold Stat.std. rewrite Hv. reflexivity.
Qed.

Lemma compare_Fin (x y : Q) :
  Stat.compare (Fin x) (Fin y)
  = match (x ?= y)%Q with Lt => (-1)%Z | Eq => 0%Z | Gt => 1%Z end.
Proof.
  unfold Stat.compare, ngt, nlt.
  rewrite <- (Qcompare_antisym x y).
  destruct (x ?= y)%Q; reflexivity.
Qed.

(** X3.  On finite numbers [compare] is a consistent comparator: 1, -1 and 0
    say greater, smaller and equal, and swapping the arguments negates the
    result.  NaN compares as equal to everything. *)
Theorem compare_orders_finite_numbers :
  (forall x y : Q,
      (Stat.compare (Fin x) (Fin y) = 1%Z <-> (y < x)%Q)
      /\ (Stat.compare (Fin x) (Fin y) = (-1)%Z <-> (x < y)%Q)
      /\ (Stat.compare (Fin x) (Fin y) = 0%Z <-> (x == y)%Q)
      /\ Stat.compare (Fin x) (Fin y) = (- Stat.compare (Fin y) (Fin x))%Z)
  /\ (forall a : num, Stat.compare NaN a = 0%Z /\ Stat.compare a NaN = 0%Z).
Proof.
  split.
  - intros x y. rewrite !compare_Fin.
    rewrite <- (Qcompare_antisym y x).
    pose proof (Qlt_alt y x) as Hgt. pose proof (Qeq_alt y x) as Heq.
    pose proof (Qgt_alt y x) as Hlt.
    destruct (y ?= x)%Q eqn:Hc; cbn.
    + repeat split; try discriminate; try reflexivity.
      * intros H. apply Hgt in H. discriminate.
      * intros H. apply Hlt in H. discriminate.
      * intros _. symmetry. apply Heq. reflexivity.
    + repeat split; try discriminate; try reflexivity.
      * intros _. apply Hgt. reflexivity.
      * intros H. apply Hlt in H. discriminate.
      * intros H. symmetry in H. apply Heq in H. discriminate.
    + repeat split; try discriminate; try reflexivity.
      * intros H. apply Hgt in H. discriminate.
      * intros _. apply Hlt. reflexivity.
      * intros H. symmetry in H. apply Heq in H. discriminate.
  - intros a. split; destruct a as [q | | s]; reflexivity.
Qed.

Lemma sum_from_NaN (l : list num) : fold_left Stat.add l NaN = NaN.
Proof. induction l as [|x l IH]; [reflexivity | exact IH]. Qed.

Lemma sum_reaches_NaN (l : list num) :
  In NaN l -> forall a : num, fold_left Stat.add l a = NaN.
Proof.
  induction l as [|x l IH]; intros Hin a; [destruct Hin |].
  cbn [fold_left]. destruct Hin as [-> | Hin].
  - replace (Stat.add a NaN) with NaN by (destruct a; reflexivity).
    apply sum_from_NaN.
  - apply IH, Hin.
Qed.

(** X4.  One NaN among the elements makes [sum] and [mean] NaN, wherever it
    stands. *)
Theorem NaN_spoils_sum_and_mean (arr : list num) :
  In NaN arr ->
  Stat.sum arr = Ok NaN /\ Stat.mean arr = Ok NaN.
Proof.
  intros Hin.
  assert (Hsum : Stat.sum arr = Ok NaN).
  { unfold Stat.sum, Stat.reduce. destruct arr as [|x xs]; [destruct Hin |].
    f_equal. destruct Hin as [-> | Hin]; [apply sum_from_NaN | apply sum_reaches_NaN, Hin]. }
  split; [exact Hsum |].
  unfold Stat.mean. rewrite Hsum. reflexivity.
Qed.

Lemma NaN_spoils_sum_and_mean_witness :
  In NaN [of_nat 1; NaN; of_nat 3]
  /\ Stat.sum [of_nat 1; NaN; of_nat 3] = Ok NaN
  /\ Stat.mean [of_nat 1; NaN; of_nat 3] = Ok NaN.
Proof.
  split; [right; left; reflexivity |].
  apply (NaN_spoils_sum_and_mean [of_nat 1; NaN; of_nat 3]).
  right; left; reflexivity.
Defined.

(** * Further properties of util.js *)




(** X7.  When [whilst] returns, the last thing it did was to evaluate the
    condition, on the final state, to false. *)
Theorem whilst_returns_with_a_false_condition {S : Type}
    (condition : option objref -> S -> M bool)
    (callback : option objref -> S -> M S) (fuel : nat) :
  forall (s : S) (w : World) (s' : S) (w' : World),
    Util.whilst fuel condition callback s w = Ret s' w' ->
    exists w0, condition None s' w0 = Ret false w'.
Proof.
  induction fuel as [|fuel IH]; intros s w s' w' Hrun; [discriminate |].
  cbn [Util.whilst] in Hrun. unfold bind at 1 in Hrun.
  destruct (condition None s w) as [go_on w1 | | |] eqn:Hcond; try discriminate.
  destruct go_on.
  - unfold bind at 1 in Hrun.
    destruct (callback None s w1) as [s1 w2 | | |]; try discriminate.
    exact (IH _ _ _ _ Hrun).
  - inversion Hrun; subst. exists w. exact Hcond.
Qed.

Lemma whilst_returns_with_a_false_condition_witness :
  Util.whilst 5 (below 3) count_up 0%nat instance_with_two_peers
  = Ret 3%nat instance_with_two_peers
  /\ exists w0, below 3 None 3%nat w0 = Ret false instance_with_two_peers.
Proof.
  split; [reflexivity |].
  apply (whilst_returns_with_a_false_condition (below 3) count_up 5 0%nat
           instance_with_two_peers 3%nat instance_with_two_peers).
  reflexivity.
Defined.

(** * Further properties of timesync.js *)

Section CorrelatorFacts.

Variable h : Host.

(** [receive] changes neither the pending requests nor the counter, however
    it ends. *)
Lemma receive_keeps_pending (from data : value) (w : World) :
  let w' := world_after (TimeSync.receive h from data w) w in
  _inProgress w' = _inProgress w /\ _id w' = _id w.
Proof.
  intros w'. subst w'.
  remember (TimeSync.receive h from data w) as o eqn:Ho.
  unfold TimeSync.receive in Ho.
  destruct (is_undefined data); cbv beta iota zeta in Ho;
    unfold bind at 1, gets at 1 in Ho; cbv beta iota in Ho.
  - destruct (if truthy from then _ else _); [subst o; split; reflexivity |].
    destruct (truthy from && _); [| subst o; split; reflexivity].
    unfold TimeSync.now, TimeSync.send, TimeSync.options_now, bind, gets, modify in Ho.
    cbn in Ho.
    destruct (host_send h VUndefined _); subst o; split; reflexivity.
  - destruct (if truthy data then _ else _); [subst o; split; reflexivity |].
    destruct (truthy data && _); [| subst o; split; reflexivity].
    unfold TimeSync.now, TimeSync.send, TimeSync.options_now, bind, gets, modify in Ho.
    cbn in Ho.
    destruct (host_send h from _); subst o; split; reflexivity.
Qed.

(** What [rpc] leaves behind, by what the transport did. *)
Lemma rpc_outcome (to : value) (method : string) (params : option string) (w : World) :
  exists w',
    TimeSync.rpc h to method params w = Ret (_id w) w'
    /\ _id w' = S (_id w)
    /\ (_inProgress w' = <[_id w := {| captured_id := _id w |}]> (_inProgress w)
        \/ _inProgress w'
           = delete (_id w) (<[_id w := {| captured_id := _id w |}]> (_inProgress w))).
Proof.
  unfold TimeSync.rpc, TimeSync.send, TimeSync._handleRPCSendError,
    TimeSync.settle_deferred, bind, try_, modify, Util.nextId.
  cbn. destruct (host_send h to _); cbn.
  - rewrite lookup_insert_eq. cbn. eexists. split; [reflexivity |]. cbn. auto.
  - eexists. split; [reflexivity |]. cbn. auto.
  - eexists. split; [reflexivity |]. cbn. auto.
Qed.

Lemma send_promise_rejects_outcome (id : nat) (w : World) :
  exists w',
    TimeSync.send_promise_rejects id w = Ret tt w'
    /\ _id w' = _id w
    /\ (_inProgress w' = _inProgress w \/ _inProgress w' = delete id (_inProgress w)).
Proof.
  unfold TimeSync.send_promise_rejects, TimeSync._handleRPCSendError,
    TimeSync.settle_deferred, bind, gets, modify.
  destruct (bool_decide (id ∈ catching w)); cbn.
  - destruct (deferreds w !! id) as [[| |]|];
      eexists; (split; [reflexivity |]); cbn; auto.
  - eexists. split; [reflexivity |]. auto.
Qed.

Lemma fields_ids_below_counter (o : Options) :
  ids_below_counter (TimeSync.fields o).
Proof.
  intros id [handler Hin]. cbn in Hin. rewrite lookup_empty in Hin. discriminate.
Qed.

Lemma rpc_ids_below_counter (to : value) (method : string) (params : option string)
    (w : World) :
  ids_below_counter w ->
  ids_below_counter (world_after (TimeSync.rpc h to method params w) w).
Proof.
  intros Hinv.
  destruct (rpc_outcome to method params w) as (w' & -> & Hid & Hmap).
  cbn. intros id Hin. rewrite Hid.
  destruct Hmap as [Hmap | Hmap]; rewrite Hmap in Hin.
  - apply lookup_insert_is_Some in Hin as [<- | [_ Hin]]; [lia |].
    specialize (Hinv id Hin). lia.
  - apply lookup_delete_is_Some in Hin as [_ Hin].
    apply lookup_insert_is_Some in Hin as [<- | [_ Hin]]; [lia |].
    specialize (Hinv id Hin). lia.
Qed.

Lemma receive_ids_below_counter (from data : value) (w : World) :
  ids_below_counter w ->
  ids_below_counter (world_after (TimeSync.receive h from data w) w).
Proof.
  intros Hinv.
  destruct (receive_keeps_pending from data w) as [Hmap Hid].
  intros id Hin. rewrite Hmap in Hin. rewrite Hid. exact (Hinv id Hin).
Qed.

Lemma send_promise_rejects_ids_below_counter (id : nat) (w : World) :
  ids_below_counter w ->
  ids_below_counter (world_after (TimeSync.send_promise_rejects id w) w).
Proof.
  intros Hinv.
  destruct (send_promise_rejects_outcome id w) as (w' & -> & Hid & Hmap).
  cbn. intros id' Hin. rewrite Hid.
  destruct Hmap as [Hmap | Hmap]; rewrite Hmap in Hin; [exact (Hinv id' Hin) |].
  apply lookup_delete_is_Some in Hin as [_ Hin]. exact (Hinv id' Hin).
Qed.

(** X8.  Every id in [_inProgress] is below the counter of [nextId]: this
    holds of the fields as they are initialised and is kept by [rpc], by
    [receive] and by the catch handler of a rejected send, however they
    end. *)
Theorem pending_ids_come_from_the_counter :
  (forall o : Options, ids_below_counter (TimeSync.fields o))
  /\ (forall w : World,
        ids_below_counter w ->
        (forall to method params,
            ids_below_counter (world_after (TimeSync.rpc h to method params w) w))
        /\ (forall from data,
              ids_below_counter (world_after (TimeSync.receive h from data w) w))
        /\ (forall id,
              ids_below_counter (world_after (TimeSync.send_promise_rejects id w) w))).
Proof.
  split; [exact fields_ids_below_counter |].
  intros w Hinv. repeat split.
  - intros to method params. apply rpc_ids_below_counter, Hinv.
  - intros from data. apply receive_ids_below_counter, Hinv.
  - intros id. apply send_promise_rejects_ids_below_counter, Hinv.
Qed.

(** X10.  Whatever the transport does, [rpc] hands it exactly one message,
    the JSON-RPC 2.0 request with the fresh id, the method and the params,
    moves the counter by one, creates the promise of the call, and changes
    neither the offset nor the events. *)
Theorem rpc_sends_one_request (to : value) (method : string)
    (params : option string) (w : World) :
  exists w',
    TimeSync.rpc h to method params w = Ret (_id w) w'
    /\ outbox w'
       = (outbox w
          ++ [(to, {| env_jsonrpc := Some "2.0"; env_id := Some (_id w);
                      env_method := Some method; env_params := params;
                      env_result := None |})])%list
    /\ _id w' = S (_id w)
    /\ is_Some (deferreds w' !! _id w)
    /\ applied w' = applied w.
Proof.
  unfold TimeSync.rpc, TimeSync.send, TimeSync._handleRPCSendError,
    TimeSync.settle_deferred, bind, try_, modify, Util.nextId.
  cbn. destruct (host_send h to _); cbn.
  - rewrite lookup_insert_eq. cbn. eexists. split; [reflexivity |]. cbn.
    rewrite lookup_insert_eq. repeat split. eauto.
  - eexists. split; [reflexivity |]. cbn.
    rewrite lookup_insert_eq. repeat split. eauto.
  - eexists. split; [reflexivity |]. cbn.
    rewrite lookup_insert_eq. repeat split. eauto.
Qed.

(** X9.  A new call gets an id different from every pending one and leaves
    the pending entries as they are. *)
Theorem rpc_keeps_the_other_pending_calls (to : value) (method : string)
    (params : option string) (id : nat) (hd : Handler) (w : World) :
  ids_below_counter w ->
  _inProgress w !! id = Some hd ->
  exists id' w',
    TimeSync.rpc h to method params w = Ret id' w'
    /\ id' <> id
    /\ _inProgress w' !! id = Some hd.
Proof.
  intros Hinv Hpending.
  destruct (rpc_outcome to method params w) as (w' & Hrun & _ & Hmap).
  assert (Hne : _id w <> id).
  { specialize (Hinv id (mk_is_Some _ _ Hpending)). lia. }
  exists (_id w), w'. split; [exact Hrun |]. split; [exact Hne |].
  destruct Hmap as [Hmap | Hmap]; rewrite Hmap.
  - rewrite lookup_insert_ne by exact Hne. exact Hpending.
  - rewrite lookup_delete_ne by exact Hne.
    rewrite lookup_insert_ne by exact Hne. exact Hpending.
Qed.

End CorrelatorFacts.

Section CallFacts.

Variable h : Host.

Lemma counter_is_not_pending (w : World) :
  ids_below_counter w -> _inProgress w !! _id w = None.
Proof.
  intros Hinv. destruct (_inProgress w !! _id w) as [hd |] eqn:Hin; [| reflexivity].
  specialize (Hinv (_id w) (mk_is_Some _ _ Hin)). lia.
Qed.

(** X11.  When [send] throws, [rpc] still returns a promise, rejected with
    "Send failure"; the entry is gone again, no catch handler is attached, and
    the warning meant for a [send] without promise is logged as well. *)
Theorem thrown_send_fails_the_call_and_warns (to : value) (method : string)
    (params : option string) (err : JsError) (w : World) :
  (forall msg, host_send h to msg = SendThrows err) ->
  ids_below_counter w ->
  exists w',
    TimeSync.rpc h to method params w = Ret (_id w) w'
    /\ _inProgress w' = _inProgress w
    /\ deferreds w' !! _id w = Some (Rejected (Error "Send failure"))
    /\ warnings w' = S (warnings w)
    /\ catching w' = catching w.
Proof.
  intros Hsend Hinv.
  unfold TimeSync.rpc, TimeSync.send, TimeSync._handleRPCSendError,
    TimeSync.settle_deferred, bind, try_, modify, Util.nextId.
  cbn. rewrite Hsend. cbn. rewrite lookup_insert_eq. cbn.
  eexists. split; [reflexivity |]. cbn.
  rewrite delete_insert_id by (apply counter_is_not_pending, Hinv).
  rewrite lookup_insert_eq. repeat split.
Qed.

(** X12.  When [send] returns a promise that later rejects, the call is
    pending in between and then rejected with "Send failure", the pending
    requests are as before the call, and nothing is logged. *)
Theorem rejected_send_promise_fails_the_call (to : value) (method : string)
    (params : option string) (w : World) :
  (forall msg, host_send h to msg = SendReturnsPromise) ->
  ids_below_counter w ->
  exists w1 w2,
    TimeSync.rpc h to method params w = Ret (_id w) w1
    /\ deferreds w1 !! _id w = Some Pending
    /\ TimeSync.send_promise_rejects (_id w) w1 = Ret tt w2
    /\ _inProgress w2 = _inProgress w
    /\ deferreds w2 !! _id w = Some (Rejected (Error "Send failure"))
    /\ warnings w2 = warnings w.
Proof.
  intros Hsend Hinv.
  unfold TimeSync.rpc, TimeSync.send, bind, try_, modify, Util.nextId.
  cbn. rewrite Hsend. cbn.
  eexists. eexists. split; [reflexivity |]. cbn.
  split; [apply lookup_insert_eq |].
  unfold TimeSync.send_promise_rejects, TimeSync._handleRPCSendError,
    TimeSync.settle_deferred, bind, gets, modify. cbn.
  rewrite bool_decide_eq_true_2 by set_solver. cbn.
  rewrite lookup_insert_eq. cbn.
  split; [reflexivity |]. cbn.
  rewrite delete_insert_id by (apply counter_is_not_pending, Hinv).
  rewrite lookup_insert_eq. repeat split.
Qed.

(** X13.  When [send] returns no promise, [rpc] warns and goes on: the call
    is registered and pending, and no failure of the transport can take it
    back. *)
Theorem send_without_promise_warns_and_waits (to : value) (method : string)
    (params : option string) (w : World) :
  (forall msg, host_send h to msg = SendReturnsOther) ->
  _id w ∉ catching w ->
  exists w',
    TimeSync.rpc h to method params w = Ret (_id w) w'
    /\ _inProgress w' !! _id w = Some {| captured_id := _id w |}
    /\ deferreds w' !! _id w = Some Pending
    /\ warnings w' = S (warnings w)
    /\ TimeSync.send_promise_rejects (_id w) w' = Ret tt w'.
Proof.
  intros Hsend Hfree.
  unfold TimeSync.rpc, TimeSync.send, bind, try_, modify, Util.nextId.
  cbn. rewrite Hsend. cbn.
  eexists. split; [reflexivity |]. cbn.
  rewrite !lookup_insert_eq. repeat split.
  unfold TimeSync.send_promise_rejects, bind, gets. cbn.
  rewrite bool_decide_eq_false_2 by exact Hfree. reflexivity.
Qed.

(** X14.  An envelope with an id that is not pending (a request, or a reply
    that nobody waits for) is answered: one message goes back to the sender,
    with the same id and the clock plus the offset as result; the instance is
    otherwise unchanged. *)
Theorem receive_answers_every_unknown_id (from : value) (e : Envelope) (id : nat)
    (w : World) :
  env_id e = Some id ->
  _inProgress w !! id = None ->
  (forall msg err, host_send h from msg <> SendThrows err) ->
  exists w',
    TimeSync.receive h from (VObj e) w = Ret tt w'
    /\ outbox w'
       = (outbox w
          ++ [(from, {| env_jsonrpc := Some "2.0"; env_id := Some id;
                        env_method := None; env_params := None;
                        env_result := Some (nadd (clock h (ticks w)) (offset w)) |})])%list
    /\ applied w' = applied w
    /\ _inProgress w' = _inProgress w
    /\ deferreds w' = deferreds w.
Proof.
  intros Hid Hfree Hsend.
  unfold TimeSync.receive, TimeSync.now, TimeSync.send, TimeSync.options_now,
    bind, gets, modify.
  cbn. rewrite Hid. cbn. rewrite Hfree. cbn.
  destruct (host_send h from _) as [err | |] eqn:Hhost.
  - exfalso. exact (Hsend _ _ Hhost).
  - eexists. split; [reflexivity |]. cbn. repeat split.
  - eexists. split; [reflexivity |]. cbn. repeat split.
Qed.

(** X15.  [receive] ignores what carries no id, in either argument
    position: nothing is sent and nothing changes. *)
Theorem receive_ignores_what_has_no_id (from data : value) (w : World) :
  id_of from = None ->
  id_of data = None ->
  TimeSync.receive h from data w = Ret tt w.
Proof.
  intros Hfrom Hdata.
  unfold TimeSync.receive.
  destruct (is_undefined data); cbv beta iota zeta;
    unfold bind, gets; cbv beta iota.
  - rewrite Hfrom. destruct (truthy from); reflexivity.
  - rewrite Hdata. destruct (truthy data); reflexivity.
Qed.

End CallFacts.

Section SamplerFailure.

Variable h : Host.

(** X16.  A sample whose send promise rejects is [null]: [_getOffset] does
    not throw, reads the clock once, leaves no pending entry behind and
    applies nothing. *)
Theorem unreachable_peer_gives_null (peer : value) (w : World) :
  (forall msg, host_send h peer msg = SendReturnsPromise) ->
  reacts h (_id w) = [RejectSend] ->
  ids_below_counter w ->
  exists w',
    TimeSync._getOffset h peer w = Ret None w'
    /\ _inProgress w' = _inProgress w
    /\ applied w' = applied w
    /\ ticks w' = S (ticks w).
Proof.
  intros Hsend Hreacts Hinv.
  unfold TimeSync._getOffset, TimeSync.rpc, TimeSync.await, TimeSync.send,
    TimeSync.options_now, Util.nextId, bind, try_, modify.
  cbn. rewrite Hsend. cbn. rewrite Hreacts.
  unfold TimeSync.host_turn, TimeSync.host_action, TimeSync.send_promise_rejects,
    TimeSync._handleRPCSendError, TimeSync.settle_deferred, bind, gets, modify.
  cbn. rewrite bool_decide_eq_true_2 by set_solver. cbn.
  rewrite lookup_insert_eq. cbn. rewrite lookup_insert_eq. cbn.
  eexists. split; [reflexivity |]. cbn.
  rewrite delete_insert_id by (apply counter_is_not_pending, Hinv).
  repeat split.
Qed.

End SamplerFailure.

(** ** The constructor *)


(** ** The properties at work *)

Lemma instance_with_two_peers_ids : ids_below_counter instance_with_two_peers.
Proof. apply fields_ids_below_counter. Qed.

Lemma instance_with_pending_call_ids : ids_below_counter instance_with_pending_call.
Proof.
  unfold instance_with_pending_call.
  apply rpc_ids_below_counter, instance_with_two_peers_ids.
Qed.

Lemma pending_ids_come_from_the_counter_witness :
  ids_below_counter instance_with_two_peers
  /\ ids_below_counter instance_with_pending_call.
Proof.
  split; [exact instance_with_two_peers_ids |].
  apply (proj1 (proj2 (pending_ids_come_from_the_counter answering_host)
                  instance_with_two_peers instance_with_two_peers_ids)).
Defined.

Lemma rpc_keeps_the_other_pending_calls_witness :
  _inProgress instance_with_pending_call !! 0%nat = Some {| captured_id := 0 |}
  /\ exists id' w',
       TimeSync.rpc answering_host (VStr "peer2") "timesync" None
         instance_with_pending_call = Ret id' w'
       /\ id' <> 0%nat
       /\ _inProgress w' !! 0%nat = Some {| captured_id := 0 |}.
Proof.
  split; [vm_compute; reflexivity |].
  apply (rpc_keeps_the_other_pending_calls answering_host (VStr "peer2") "timesync"
           None 0 {| captured_id := 0 |} instance_with_pending_call).
  - exact instance_with_pending_call_ids.
  - vm_compute; reflexivity.
Defined.

Lemma thrown_send_fails_the_call_and_warns_witness :
  exists w',
    TimeSync.rpc broken_host (VStr "peer1") "timesync" None instance_with_two_peers
    = Ret 0%nat w'
    /\ _inProgress w' = _inProgress instance_with_two_peers
    /\ deferreds w' !! 0%nat = Some (Rejected (Error "Send failure"))
    /\ warnings w' = 1%nat
    /\ catching w' = catching instance_with_two_peers.
Proof.
  apply (thrown_send_fails_the_call_and_warns broken_host (VStr "peer1") "timesync"
           None (Error "offline") instance_with_two_peers).
  - reflexivity.
  - exact instance_with_two_peers_ids.
Defined.

Lemma rejected_send_promise_fails_the_call_witness :
  exists w1 w2,
    TimeSync.rpc answering_host (VStr "peer1") "timesync" None instance_with_two_peers
    = Ret 0%nat w1
    /\ deferreds w1 !! 0%nat = Some Pending
    /\ TimeSync.send_promise_rejects 0 w1 = Ret tt w2
    /\ _inProgress w2 = _inProgress instance_with_two_peers
    /\ deferreds w2 !! 0%nat = Some (Rejected (Error "Send failure"))
    /\ warnings w2 = 0%nat.
Proof.
  apply (rejected_send_promise_fails_the_call answering_host (VStr "peer1")
           "timesync" None instance_with_two_peers).
  - reflexivity.
  - exact instance_with_two_peers_ids.
Defined.

Lemma send_without_promise_warns_and_waits_witness :
  exists w',
    TimeSync.rpc careless_host (VStr "peer1") "timesync" None instance_with_two_peers
    = Ret 0%nat w'
    /\ _inProgress w' !! 0%nat = Some {| captured_id := 0 |}
    /\ deferreds w' !! 0%nat = Some Pending
    /\ warnings w' = 1%nat
    /\ TimeSync.send_promise_rejects 0 w' = Ret tt w'.
Proof.
  apply (send_without_promise_warns_and_waits careless_host (VStr "peer1")
           "timesync" None instance_with_two_peers).
  - reflexivity.
  - apply not_elem_of_empty.
Defined.

Lemma receive_answers_every_unknown_id_witness :
  exists w',
    TimeSync.receive answering_host (VStr "peer1") (VObj request_7)
      instance_with_two_peers = Ret tt w'
    /\ outbox w'
       = [(VStr "peer1",
           {| env_jsonrpc := Some "2.0"; env_id := Some 7; env_method := None;
              env_params := None; env_result := Some (of_nat 100) |})]
    /\ applied w' = applied instance_with_two_peers
    /\ _inProgress w' = _inProgress instance_with_two_peers
    /\ deferreds w' = deferreds instance_with_two_peers.
Proof.
  apply (receive_answers_every_unknown_id answering_host (VStr "peer1") request_7 7
           instance_with_two_peers).
  - reflexivity.
  - reflexivity.
  - intros msg err. discriminate.
Defined.

Lemma receive_ignores_what_has_no_id_witness :
  TimeSync.receive answering_host (VStr "peer1") (VStr "hello")
    instance_with_pending_call
  = Ret tt instance_with_pending_call.
Proof.
  apply (receive_ignores_what_has_no_id answering_host (VStr "peer1") (VStr "hello")
           instance_with_pending_call); reflexivity.
Defined.

Lemma unreachable_peer_gives_null_witness :
  exists w',
    TimeSync._getOffset unreachable_host (VStr "peer1") instance_with_two_peers
    = Ret None w'
    /\ _inProgress w' = _inProgress instance_with_two_peers
    /\ applied w' = applied instance_with_two_peers
    /\ ticks w' = 1%nat.
Proof.
  apply (unreachable_peer_gives_null unreachable_host (VStr "peer1")
           instance_with_two_peers).
  - reflexivity.
  - reflexivity.
  - exact instance_with_two_peers_ids.
Defined.
